(** * The Compiler orchestrator of webpack-source, embedded in Rocq

    The development follows [class Compiler] and [class SizeOnlySource]
    (src/webpack-cli/bin/utils/prompt-command.js, lines 565-1181).

    - JavaScript objects that the code shares by reference (the records
      tree, the asset content objects) live in explicit stores and are
      named by locations, so that "the same object" is an equality of
      locations.
    - Asynchronous calls are answered by the environment: hook taps, the
      file systems and the Compilation class are collaborators whose
      answers are fields of the [Collaborators] class.
    - [asyncLib.forEachLimit] is a small machine whose inputs are the
      completions of the writes in flight. *)

From Stdlib Require Import Ascii.
From stdpp Require Import gmap strings list fin_maps.

Open Scope string_scope.
Open Scope list_scope.
Open Scope nat_scope.

(** ** JavaScript values and the object store *)

Definition loc := nat.

Inductive jsval :=
| VUndefined
| VNull
| VBool (b : bool)
| VNum (n : Z)
| VStr (s : string)
| VRef (l : loc).

#[global] Instance jsval_eq_dec : EqDecision jsval.
Proof. solve_decision. Defined.

(** [if (v)] and [!v] of the source. *)
Definition truthy (v : jsval) : bool :=
  match v with
  | VUndefined | VNull => false
  | VBool b => b
  | VNum n => negb (n =? 0)%Z
  | VStr s => negb (bool_decide (s = ""))
  | VRef _ => true
  end.

(** A heap object is a plain object (string keys) or an array. *)
Inductive jsobj :=
| JObject (fields : gmap string jsval)
| JArray (elems : list jsval).

Record Heap := mkHeap { objects : gmap loc jsobj }.

(** [new Object] / [[]]: a location that no object occupies yet. *)
Definition alloc (o : jsobj) (h : Heap) : loc * Heap :=
  let l := fresh (dom (objects h)) in
  (l, mkHeap (<[l := o]> (objects h))).

(** What a method call does: it returns, it throws, or it leaves the
    fragment of JavaScript that the embedding covers (property access
    on primitives and on arrays by name, numeric keys of plain objects). *)
Inductive outcome (A : Type) :=
| Returned (a : A)
| Threw (message : string)
| Unmodelled.
Arguments Returned {A} a.
Arguments Threw {A} message.
Arguments Unmodelled {A}.

(** The returned value, for use in examples. *)
Definition returned {A : Type} (o : outcome A) : option A :=
  match o with
  | Returned a => Some a
  | _ => None
  end.

(** ** Hooks and taps *)

Inductive TapType := TapSync | TapAsync | TapPromise.

#[global] Instance TapType_eq_dec : EqDecision TapType.
Proof. solve_decision. Defined.

(** A tap registered on a hook: tapable keeps [{ name, type, fn }];
    the callable is named by a number. *)
Record Tap := mkTap { tap_name : string; tap_type : TapType; tap_fn : nat }.

#[global] Instance Tap_eq_dec : EqDecision Tap.
Proof. solve_decision. Defined.

(** [this.hooks]: a JavaScript object from hook names to hooks; a hook
    is represented by its [taps] array. *)
Abbreviation Hooks := (gmap string (list Tap)).

(** The hook names the constructor creates, in the constructor's order. *)
Definition constructor_hook_names : list string :=
  [ "done"; "additionalPass"; "beforeRun"; "run";
    "shouldEmit"; "emit"; "afterEmit";
    "thisCompilation"; "compilation"; "normalModuleFactory"; "contextModuleFactory";
    "beforeCompile"; "compile"; "make"; "afterCompile";
    "watchRun"; "failed"; "invalid"; "watchClose";
    "environment"; "afterEnvironment"; "afterPlugins"; "afterResolvers"; "entryOption" ].

(** ** Asset content objects *)

Definition SourceId := nat.

(** What [source.source()] returns: a Buffer or a string. *)
Inductive BufferOrString :=
| IsBuffer (bytes : list ascii)
| IsString (s : string).

(** [Buffer.from(s, "utf8")]: a [string] is taken as its UTF-8 bytes. *)
Definition Buffer_from (b : BufferOrString) : list ascii :=
  match b with
  | IsBuffer bytes => bytes
  | IsString s => String.list_ascii_of_string s
  end.

(** A content object of the asset mapping.  [ContentSource] is any
    emittable source of the collaborators: its [source()] value, its
    optional [buffer()] method, and the two fields legacy emission
    writes on it.  [SizeOnlySource] is the class of this file. *)
Inductive Source :=
| ContentSource (content : BufferOrString) (buffer : option (list ascii))
                (existsAt : option string) (emitted : option bool)
| SizeOnlySource (_size : nat).

(** [class SizeOnlySource] (lines 1140-1181). *)
Module SizeOnly.
Definition _error : string :=
  "Content and Map of this Source is no longer available (only size() is supported)".
Definition size (_size : nat) : outcome nat := Returned _size.
Definition source (_size : nat) : outcome BufferOrString := Threw _error.
Definition node (_size : nat) : outcome jsval := Threw _error.
Definition listMap (_size : nat) : outcome jsval := Threw _error.
Definition map (_size : nat) : outcome jsval := Threw _error.
Definition listNode (_size : nat) : outcome jsval := Threw _error.
Definition updateHash (_size : nat) : outcome unit := Threw _error.
End SizeOnly.

(** Method dispatch on a content object. *)
Definition Source_source (s : Source) : outcome BufferOrString :=
  match s with
  | ContentSource content _ _ _ => Returned content
  | SizeOnlySource n => SizeOnly.source n
  end.

Definition Source_size (s : Source) : outcome nat :=
  match s with
  | ContentSource content _ _ _ => Returned (length (Buffer_from content))
  | SizeOnlySource n => SizeOnly.size n
  end.

(** [_assetEmittingSourceCache] entries. *)
Record CacheEntry := mkCacheEntry {
  sizeOnlySource : option SourceId;
  writtenTo : gmap string nat
}.

(** ** The Compiler object *)

Record Compiler := mkCompiler {
  hooks : Hooks;
  name : option string;
  parentCompilation : option nat;
  outputPath : string;
  outputFileSystem : option nat;
  inputFileSystem : option nat;
  recordsInputPath : option string;
  recordsOutputPath : option string;
  records : jsval;
  removedFiles : gset string;
  fileTimestamps : gmap string Z;
  contextTimestamps : gmap string Z;
  resolverFactory : nat;
  options_output : gmap string jsval;
  context : string;
  running : bool;
  watchMode : bool;
  _assetEmittingSourceCache : gmap SourceId CacheEntry;
  _assetEmittingWrittenFiles : gmap string nat
}.

(** ** The Compilation object, events and the world *)

(** [compilation.assets] is a JavaScript object: the keys keep their
    insertion order, a key occurs once, the values are references to
    content objects. *)
Definition Assets := list (string * SourceId).

Fixpoint assets_get (file : string) (assets : Assets) : option SourceId :=
  match assets with
  | [] => None
  | (k, v) :: rest => if decide (k = file) then Some v else assets_get file rest
  end.

(** [assets[file] = v]: replaces the value of an existing key in place,
    appends a new key. *)
Fixpoint assets_set (file : string) (v : SourceId) (assets : Assets) : Assets :=
  match assets with
  | [] => [(file, v)]
  | (k, w) :: rest =>
    if decide (k = file) then (k, v) :: rest else (k, w) :: assets_set file v rest
  end.

(** The part of a Compilation (class not in this file) that the
    Compiler reads and writes. *)
Record Compilation := mkCompilation {
  assets : Assets;
  emittedAssets : gset string;
  needAdditionalPass : bool
}.

(** What the Compiler does to its collaborators, in order. *)
Inductive Event :=
| EMethod (method : string)               (* a method of the Compiler is entered *)
| EHook (hook : string)                   (* a hook of [this.hooks] is called *)
| ETap (hook : string) (tap : Tap)        (* one of its taps is invoked *)
| ENeedAdditionalPass                     (* compilation.hooks.needAdditionalPass.call() *)
| EFinish                                 (* compilation.finish *)
| ESeal                                   (* compilation.seal *)
| EStat (path : string)
| EReadFile (path : string)
| EMkdirp (path : string)
| EWriteFile (path : string) (content : list ascii)     (* an asset, lines 910 and 937 *)
| EWriteRecords (path : string) (content : list ascii)  (* the records file, line 981 *)
| ENewWatching.                           (* new Watching(this, watchOptions, handler) *)

#[global] Instance Event_eq_dec : EqDecision Event.
Proof. solve_decision. Defined.

(** The stores shared by everything, and the history. *)
Record World := mkWorld {
  heap : Heap;
  sources : gmap SourceId Source;
  trace : list Event
}.

Definition log (e : Event) (w : World) : World :=
  mkWorld (heap w) (sources w) (trace w ++ [e]).

(** Collaborators that are not part of this file.  Their answers may
    depend on everything that happened before (the trace).
    - [makePathsRelative] (./util/identifier), [parseJson]
      (json-parse-better-errors, placing its result in the object
      store), [path.dirname], the output file system's [join] and
      [compilation.getPath];
    - the taps: [Some message] is a failure passed to the hook's
      callback; the value of a bail tap;
    - the file systems: [Some message] is the error of the callback;
    - the Compilation class: the sealed compilation with the content
      objects it created, and the answers of [finish], [seal] and of
      the [needAdditionalPass] bail hook;
    - the order in which the writes in flight complete, and with which
      error: [emit_schedule trace n] answers the [n]-th completion. *)
Class Collaborators := {
  makePathsRelative : string -> string -> string;
  parseJson : string -> Heap -> (string + jsval * Heap);
  path_dirname : string -> string;
  fs_join : string -> string -> string;
  getPath : string -> string;
  (* compilation.hooks.childCompiler.call(childCompiler, compilerName, compilerIndex):
     [Some message] when a tap throws *)
  compilation_hooks_childCompiler : nat -> Compiler -> string -> nat -> option string;
  tap_callAsync : string -> Tap -> list Event -> option string;
  tap_call_bail : string -> Tap -> list Event -> jsval;
  inputFileSystem_stat : string -> list Event -> option string;
  inputFileSystem_readFile : string -> list Event -> string + string;
  outputFileSystem_mkdirp : string -> list Event -> option string;
  outputFileSystem_writeFile : string -> list ascii -> list Event -> option string;
  compilation_finish : list Event -> option string;
  compilation_seal : list Event -> option string;
  compilation_sealed : list Event -> gmap SourceId Source -> Compilation * gmap SourceId Source;
  compilation_hooks_needAdditionalPass : Compilation -> list Event -> jsval;
  Date_now : list Event -> Z;
  JSON_stringify : jsval -> Heap -> list ascii;
  emit_schedule : list Event -> nat -> nat * option string
}.

(** [this.hooks] as the constructor leaves it: every hook without taps. *)
Definition constructor_hooks : Hooks :=
  list_to_map ((fun n => (n, [])) <$> constructor_hook_names).

(** [new Compiler(context)] (lines 566-722); [this.records = {}] is a
    fresh object of the store. *)
Definition new_Compiler (context : string) (h : Heap) : Compiler * Heap :=
  let '(r, h') := alloc (JObject ∅) h in
  ({| hooks := constructor_hooks;
      name := None;
      parentCompilation := None;
      outputPath := "";
      outputFileSystem := None;
      inputFileSystem := None;
      recordsInputPath := None;
      recordsOutputPath := None;
      records := VRef r;
      removedFiles := ∅;
      fileTimestamps := ∅;
      contextTimestamps := ∅;
      resolverFactory := 0;
      options_output := ∅;
      context := context;
      running := false;
      watchMode := false;
      _assetEmittingSourceCache := ∅;
      _assetEmittingWrittenFiles := ∅ |}, h').

(** ** createChildCompiler (lines 1020-1062) *)

(** A plugin of the [plugins] argument: [plugin.apply(childCompiler)]. *)
Definition Plugin := Compiler -> Compiler.

Definition set_hooks (c : Compiler) (hs : Hooks) : Compiler :=
  {| hooks := hs; name := name c; parentCompilation := parentCompilation c;
     outputPath := outputPath c; outputFileSystem := outputFileSystem c;
     inputFileSystem := inputFileSystem c; recordsInputPath := recordsInputPath c;
     recordsOutputPath := recordsOutputPath c; records := records c;
     removedFiles := removedFiles c; fileTimestamps := fileTimestamps c;
     contextTimestamps := contextTimestamps c; resolverFactory := resolverFactory c;
     options_output := options_output c; context := context c;
     running := running c; watchMode := watchMode c;
     _assetEmittingSourceCache := _assetEmittingSourceCache c;
     _assetEmittingWrittenFiles := _assetEmittingWrittenFiles c |}.

(** The names whose taps stay with the parent (line 1028). *)
Definition excluded_hooks : list string :=
  ["make"; "compile"; "emit"; "afterEmit"; "invalid"; "done"; "thisCompilation"].

(** Lines 1027-1033: [for (const name in this.hooks)], with both guards. *)
Definition copy_taps (this_hooks child_hooks : Hooks) : Hooks :=
  map_fold (fun name taps (child : Hooks) =>
              if bool_decide (name ∈ excluded_hooks) then child
              else match child !! name with
                   | Some _ => <[name := taps]> child
                   | None => child
                   end)
           child_hooks this_hooks.

(** Lines 1042-1050: the record slot of the child.  The result is the
    value assigned to [childCompiler.records]. *)
Definition child_records (this_records : jsval) (relativeCompilerName : string)
    (compilerIndex : nat) (h : Heap) : outcome (jsval * Heap) :=
  match this_records with
  | VUndefined | VNull => Threw "TypeError: Cannot read property of undefined"
  | VBool _ | VNum _ | VStr _ => Unmodelled
  | VRef r =>
    match objects h !! r with
    | Some (JObject fields) =>
      (* if (!this.records[relativeCompilerName]) this.records[relativeCompilerName] = []; *)
      let '(arr, h1) :=
        if truthy (default VUndefined (fields !! relativeCompilerName))
        then (default VUndefined (fields !! relativeCompilerName), h)
        else let '(a, h') := alloc (JArray []) h in
             (VRef a, mkHeap (<[r := JObject (<[relativeCompilerName := VRef a]> fields)]>
                                (objects h'))) in
      match arr with
      | VBool _ | VNum _ => Threw "TypeError: push is not a function"
      | VRef a =>
        match objects h1 !! a with
        | Some (JArray elems) =>
          (* if (this.records[relativeCompilerName][compilerIndex]) *)
          if truthy (default VUndefined (elems !! compilerIndex))
          then Returned (default VUndefined (elems !! compilerIndex), h1)
          else
            (* this.records[relativeCompilerName].push((childCompiler.records = {})) *)
            let '(slot, h2) := alloc (JObject ∅) h1 in
            Returned (VRef slot,
                      mkHeap (<[a := JArray (elems ++ [VRef slot])]> (objects h2)))
        | _ => Unmodelled
        end
      | _ => Unmodelled
      end
    | _ => Unmodelled
    end
  end.

Definition apply_plugins (plugins : option (list Plugin)) (childCompiler : Compiler)
  : Compiler :=
  match plugins with
  | Some ps => foldl (fun c (plugin : Plugin) => plugin c) childCompiler ps
  | None => childCompiler
  end.

Definition createChildCompiler {E : Collaborators} (this : Compiler) (compilation : nat)
    (compilerName : string) (compilerIndex : nat)
    (outputOptions : gmap string jsval) (plugins : option (list Plugin))
    (h : Heap) : outcome (Compiler * Heap) :=
  let '(childCompiler, h0) := new_Compiler (context this) h in
  (* if (Array.isArray(plugins)) for (const plugin of plugins) plugin.apply(childCompiler) *)
  let childCompiler := apply_plugins plugins childCompiler in
  let child_hooks := copy_taps (hooks this) (hooks childCompiler) in
  let relativeCompilerName := makePathsRelative (context this) compilerName in
  match child_records (records this) relativeCompilerName compilerIndex h0 with
  | Returned (slot, h1) =>
    let childCompiler :=
      {| hooks := child_hooks;
         name := Some compilerName;
         parentCompilation := Some compilation;
         outputPath := outputPath this;
         outputFileSystem := None;
         inputFileSystem := inputFileSystem this;
         recordsInputPath := recordsInputPath childCompiler;
         recordsOutputPath := recordsOutputPath childCompiler;
         records := slot;
         removedFiles := removedFiles childCompiler;
         fileTimestamps := fileTimestamps this;
         contextTimestamps := contextTimestamps this;
         resolverFactory := resolverFactory this;
         (* Object.create(parent output) overlaid with outputOptions *)
         options_output := outputOptions ∪ options_output this;
         context := context childCompiler;
         running := running childCompiler;
         watchMode := watchMode childCompiler;
         _assetEmittingSourceCache := _assetEmittingSourceCache childCompiler;
         _assetEmittingWrittenFiles := _assetEmittingWrittenFiles childCompiler |} in
    match compilation_hooks_childCompiler compilation childCompiler
            compilerName compilerIndex with
    | Some message => Threw message
    | None => Returned (childCompiler, h1)
    end
  | Threw message => Threw message
  | Unmodelled => Unmodelled
  end.









(** ** emitAssets: writing the assets (lines 844-967) *)

(** [s.indexOf(c)] and [s.lastIndexOf(c)], [-1] when [c] does not occur. *)
Fixpoint indexOf (c : ascii) (s : string) : Z :=
  match s with
  | EmptyString => (-1)%Z
  | String d rest =>
    if Ascii.eqb d c then 0%Z
    else let i := indexOf c rest in
         if (i <? 0)%Z then (-1)%Z else (i + 1)%Z
  end.

Fixpoint lastIndexOf (c : ascii) (s : string) : Z :=
  match s with
  | EmptyString => (-1)%Z
  | String d rest =>
    let i := lastIndexOf c rest in
    if (0 <=? i)%Z then (i + 1)%Z
    else if Ascii.eqb d c then 0%Z else (-1)%Z
  end.

(** [s.substr(0, n)] *)
Definition substr0 (s : string) (n : Z) : string := String.substring 0 (Z.to_nat n) s.

(** Lines 854-856: the file name without its query string. *)
Definition targetFile_of (file : string) : string :=
  let queryStringIdx := indexOf "?" file in
  if (0 <=? queryStringIdx)%Z then substr0 file queryStringIdx else file.

(** Line 941: [targetFile.match(/\/|\\/)]. *)
Definition has_separator (targetFile : string) : bool :=
  (0 <=? indexOf "/" targetFile)%Z || (0 <=? indexOf "\" targetFile)%Z.

(** [this.options.output.futureEmitAssets] as a condition. *)
Definition futureEmitAssets (this : Compiler) : bool :=
  truthy (default VUndefined (options_output this !! "futureEmitAssets")).

(** Lines 890-901: the bytes of a content object. *)
Definition Source_content (s : Source) : outcome (list ascii) :=
  match s with
  | ContentSource _ (Some bytes) _ _ => Returned bytes
  | ContentSource content None _ _ => Returned (Buffer_from content)
  | SizeOnlySource n =>
    match SizeOnly.source n with
    | Returned content => Returned (Buffer_from content)
    | Threw message => Threw message
    | Unmodelled => Unmodelled
    end
  end.

Definition set_emitting (this : Compiler) (cache : gmap SourceId CacheEntry)
    (written : gmap string nat) : Compiler :=
  {| hooks := hooks this; name := name this; parentCompilation := parentCompilation this;
     outputPath := outputPath this; outputFileSystem := outputFileSystem this;
     inputFileSystem := inputFileSystem this; recordsInputPath := recordsInputPath this;
     recordsOutputPath := recordsOutputPath this; records := records this;
     removedFiles := removedFiles this; fileTimestamps := fileTimestamps this;
     contextTimestamps := contextTimestamps this; resolverFactory := resolverFactory this;
     options_output := options_output this; context := context this;
     running := running this; watchMode := watchMode this;
     _assetEmittingSourceCache := cache;
     _assetEmittingWrittenFiles := written |}.

(** A call of the iterator that waits for the file system: for
    [mkdirp] (line 943), for the [writeFile] of caching mode with the
    variables its callback closes over (lines 910-921), or for the
    [writeFile] of legacy mode (line 937). *)
Inductive Task :=
| AwaitMkdirp (file targetFile : string) (source : SourceId)
| AwaitWriteFile (file targetPath : string) (source : SourceId)
    (targetFileGeneration : option nat)
| AwaitWriteFileLegacy (file targetPath : string).

(** The state of one [asyncLib.forEachLimit] call of [emitFiles]. *)
Record EmitState := mkEmitState {
  es_this : Compiler;
  es_compilation : Compilation;
  es_world : World;
  es_outputPath : string;
  es_keys : list string;                    (* keys not yet started *)
  es_size : nat;
  es_completed : nat;
  es_inflight : list Task;
  es_callback : option (option string);     (* the final callback was called with *)
  es_thrown : option string                 (* an exception left the iterator *)
}.

Definition set_objects (s : EmitState) (this : Compiler) (compilation : Compilation)
    (w : World) : EmitState :=
  mkEmitState this compilation w (es_outputPath s) (es_keys s) (es_size s)
    (es_completed s) (es_inflight s) (es_callback s) (es_thrown s).

Definition set_keys (keys : list string) (s : EmitState) : EmitState :=
  mkEmitState (es_this s) (es_compilation s) (es_world s) (es_outputPath s) keys
    (es_size s) (es_completed s) (es_inflight s) (es_callback s) (es_thrown s).

Definition set_inflight (tasks : list Task) (s : EmitState) : EmitState :=
  mkEmitState (es_this s) (es_compilation s) (es_world s) (es_outputPath s) (es_keys s)
    (es_size s) (es_completed s) tasks (es_callback s) (es_thrown s).

Definition set_completed (n : nat) (s : EmitState) : EmitState :=
  mkEmitState (es_this s) (es_compilation s) (es_world s) (es_outputPath s) (es_keys s)
    (es_size s) n (es_inflight s) (es_callback s) (es_thrown s).

Definition set_thrown (message : string) (s : EmitState) : EmitState :=
  mkEmitState (es_this s) (es_compilation s) (es_world s) (es_outputPath s) (es_keys s)
    (es_size s) (es_completed s) (es_inflight s) (es_callback s) (Some message).

(** [callback = once(callback); callback(err)]: the final callback
    runs at most once. *)
Definition call_final (err : option string) (s : EmitState) : EmitState :=
  match es_callback s with
  | Some _ => s
  | None =>
    mkEmitState (es_this s) (es_compilation s) (es_world s) (es_outputPath s) (es_keys s)
      (es_size s) (es_completed s) (es_inflight s) (Some err) (es_thrown s)
  end.

(** How a call of the iterator, or of [writeOut], ends. *)
Inductive Started :=
| Pending (t : Task)           (* a file system call is in flight *)
| CompletedSync                (* [callback()] was called before returning *)
| ThrewSync (message : string).

(** Lines 859-939, [writeOut] without error. *)
Definition writeOut {E : Collaborators} (file targetFile : string) (source : SourceId)
    (s : EmitState) : Started * EmitState :=
  let this := es_this s in
  let compilation := es_compilation s in
  let w := es_world s in
  let targetPath := fs_join (es_outputPath s) targetFile in
  if futureEmitAssets this then
    let targetFileGeneration := _assetEmittingWrittenFiles this !! targetPath in
    let '(cacheEntry, cache) :=
      match _assetEmittingSourceCache this !! source with
      | Some cacheEntry => (cacheEntry, _assetEmittingSourceCache this)
      | None =>
        (mkCacheEntry None ∅,
         <[source := mkCacheEntry None ∅]> (_assetEmittingSourceCache this))
      end in
    if match targetFileGeneration with
       | Some g => bool_decide (writtenTo cacheEntry !! targetPath = Some g)
       | None => false
       end
    then
      (CompletedSync,
       set_objects s (set_emitting this cache (_assetEmittingWrittenFiles this)) compilation w)
    else
      match Source_content <$> sources w !! source with
      | Some (Returned content) =>
        let sizeOnly := fresh (dom (sources w)) in
        let cache := <[source := mkCacheEntry (Some sizeOnly) (writtenTo cacheEntry)]> cache in
        (Pending (AwaitWriteFile file targetPath source targetFileGeneration),
         set_objects s
           (set_emitting this cache (_assetEmittingWrittenFiles this))
           (mkCompilation (assets_set file sizeOnly (assets compilation))
              (emittedAssets compilation) (needAdditionalPass compilation))
           (mkWorld (heap w)
              (<[sizeOnly := SizeOnlySource (length content)]> (sources w))
              (trace w ++ [EWriteFile targetPath content])))
      | Some (Threw message) =>
        (ThrewSync message,
         set_objects s (set_emitting this cache (_assetEmittingWrittenFiles this)) compilation w)
      | Some Unmodelled | None =>
        (ThrewSync "TypeError: source is not an object",
         set_objects s (set_emitting this cache (_assetEmittingWrittenFiles this)) compilation w)
      end
  else
    match sources w !! source with
    | Some (ContentSource content buffer existsAt emitted) =>
      if bool_decide (existsAt = Some targetPath) then
        (CompletedSync,
         set_objects s this compilation
           (mkWorld (heap w)
              (<[source := ContentSource content buffer existsAt (Some false)]> (sources w))
              (trace w)))
      else
        (Pending (AwaitWriteFileLegacy file targetPath),
         set_objects s this compilation
           (mkWorld (heap w)
              (<[source := ContentSource content buffer (Some targetPath) (Some true)]>
                 (sources w))
              (trace w ++ [EWriteFile targetPath (Buffer_from content)])))
    | Some (SizeOnlySource n) => (ThrewSync SizeOnly._error, s)
    | None => (ThrewSync "TypeError: source is not an object", s)
    end.

(** Lines 853-857 and 940-946: the iterator, called with
    [collection[key]] and [key]. *)
Definition iterator {E : Collaborators} (file : string) (s : EmitState)
  : Started * EmitState :=
  match assets_get file (assets (es_compilation s)) with
  | None => (ThrewSync "TypeError: source is not an object", s)
  | Some source =>
    let targetFile := targetFile_of file in
    if has_separator targetFile then
      let dir := path_dirname targetFile in
      (Pending (AwaitMkdirp file targetFile source),
       set_objects s (es_this s) (es_compilation s)
         (log (EMkdirp (fs_join (es_outputPath s) dir)) (es_world s)))
    else writeOut file targetFile source s
  end.

(** Modelled from the spec: [asyncLib.forEachLimit] of the package
    neo-async, which is not among the sources.  The spec describes it as
    "a bounded concurrency of at most 15 simultaneous in-flight writes (a
    semaphore/limiter — exceeding this bound must queue, never fail)"
    whose final callback runs "after all writes settle (success or first
    error)".  The limiter starts [min(limit, size)] iterator calls, and
    each completion without error starts the next key; the first error,
    or the last completion, calls the final callback once and stops the
    starting of further keys. *)

(** [iterate()]: starts the next key; a call that completed before
    returning is counted and followed by the next one. *)
Fixpoint iterate {E : Collaborators} (keys : list string) (s : EmitState) : EmitState :=
  match keys with
  | [] => s
  | file :: rest =>
    match iterator file (set_keys rest s) with
    | (Pending t, s1) => set_inflight (es_inflight s1 ++ [t]) s1
    | (ThrewSync message, s1) => set_thrown message s1
    | (CompletedSync, s1) =>
      let s2 := set_completed (S (es_completed s1)) s1 in
      if decide (es_completed s2 = es_size s2) then call_final None s2
      else iterate rest s2
    end
  end.

(** [iterate] is replaced by a no-op once the final callback was
    called; nothing runs after an uncaught exception. *)
Definition iterate_next {E : Collaborators} (s : EmitState) : EmitState :=
  match es_callback s, es_thrown s with
  | None, None => iterate (es_keys s) s
  | _, _ => s
  end.

(** [done(err)]: the callback handed to the iterator. *)
Definition done {E : Collaborators} (err : option string) (s : EmitState) : EmitState :=
  match err with
  | Some e => call_final (Some e) s
  | None =>
    let s1 := set_completed (S (es_completed s)) s in
    if decide (es_completed s1 = es_size s1) then call_final None s1
    else iterate_next s1
  end.

Fixpoint timesSync {E : Collaborators} (n : nat) (s : EmitState) : EmitState :=
  match n with
  | 0 => s
  | S n' => timesSync n' (iterate_next s)
  end.

(** [asyncLib.forEachLimit(collection, limit, iterator, callback)] up
    to its return. *)
Definition forEachLimit {E : Collaborators} (limit : nat) (outputPath : string)
    (this : Compiler) (compilation : Compilation) (w : World) : EmitState :=
  let keys := (assets compilation).*1 in
  let s := mkEmitState this compilation w outputPath keys (length keys) 0 [] None None in
  if decide (length keys = 0 ∨ limit < 1) then call_final None s
  else timesSync (limit `min` length keys) s.

(** Lines 914-919: the callback of [writeFile] in caching mode, after
    a write without error. *)
Definition record_write (file targetPath : string) (source : SourceId)
    (targetFileGeneration : option nat) (s : EmitState) : EmitState :=
  let this := es_this s in
  let compilation := es_compilation s in
  let newGeneration :=
    match targetFileGeneration with
    | None => 1
    | Some g => g + 1
    end in
  let cache :=
    match _assetEmittingSourceCache this !! source with
    | Some cacheEntry =>
      <[source := mkCacheEntry (sizeOnlySource cacheEntry)
                    (<[targetPath := newGeneration]> (writtenTo cacheEntry))]>
        (_assetEmittingSourceCache this)
    | None => _assetEmittingSourceCache this
    end in
  set_objects s
    (set_emitting this cache
       (<[targetPath := newGeneration]> (_assetEmittingWrittenFiles this)))
    (mkCompilation (assets compilation) ({[file]} ∪ emittedAssets compilation)
       (needAdditionalPass compilation))
    (es_world s).

(** The file system answers the [k]-th call in flight with [err]. *)
Definition complete {E : Collaborators} (k : nat) (err : option string) (s : EmitState)
  : EmitState :=
  match es_thrown s, es_inflight s !! k with
  | None, Some t =>
    let s := set_inflight (delete k (es_inflight s)) s in
    match t with
    | AwaitMkdirp file targetFile source =>
      (* writeOut(err) *)
      match err with
      | Some e => done (Some e) s
      | None =>
        match writeOut file targetFile source s with
        | (Pending t', s1) => set_inflight (es_inflight s1 ++ [t']) s1
        | (CompletedSync, s1) => done None s1
        | (ThrewSync message, s1) => set_thrown message s1
        end
      end
    | AwaitWriteFile file targetPath source targetFileGeneration =>
      (* lines 910-921 *)
      match err with
      | Some e => done (Some e) s
      | None => done None (record_write file targetPath source targetFileGeneration s)
      end
    | AwaitWriteFileLegacy _ _ => done err s
    end
  | _, _ => s
  end.

(** The writes complete in the order and with the errors of
    [schedule], until the final callback is called. *)
Fixpoint drive {E : Collaborators} (schedule : nat → nat * option string)
    (n fuel : nat) (s : EmitState) : EmitState :=
  match fuel with
  | 0 => s
  | S fuel' =>
    match es_callback s, es_thrown s, es_inflight s with
    | None, None, _ :: _ =>
      let '(k, err) := schedule n in
      drive schedule (S n) fuel' (complete (k `mod` length (es_inflight s)) err s)
    | _, _, _ => s
    end
  end.

(** The events of the file system calls that the iterator issues. *)
Definition is_fs_event (e : Event) : Prop :=
  match e with
  | EMkdirp _ | EWriteFile _ _ => True
  | _ => False
  end.

(** What the limiter and the iterator leave alone: they only append
    file system events to the history, and of the Compiler they only
    write the two emission caches. *)
Definition emit_frame (s s' : EmitState) : Prop :=
  (∃ added, trace (es_world s') = trace (es_world s) ++ added ∧ Forall is_fs_event added) ∧
  heap (es_world s') = heap (es_world s) ∧
  es_this s' = set_emitting (es_this s) (_assetEmittingSourceCache (es_this s'))
                 (_assetEmittingWrittenFiles (es_this s')) ∧
  es_outputPath s' = es_outputPath s ∧
  es_size s' = es_size s.

(** The states one [forEachLimit] call goes through, whatever the order
    and the errors of the completions. *)
Inductive emitting {E : Collaborators} (limit : nat) (outputPath : string) (this : Compiler)
    (compilation : Compilation) (w : World) : EmitState → Prop :=
| emitting_start :
    emitting limit outputPath this compilation w
      (forEachLimit limit outputPath this compilation w)
| emitting_complete (s : EmitState) (k : nat) (err : option string) :
    emitting limit outputPath this compilation w s →
    emitting limit outputPath this compilation w (complete k err s).



Definition task_file (t : Task) : string :=
  match t with
  | AwaitMkdirp file _ _ | AwaitWriteFile file _ _ _ | AwaitWriteFileLegacy file _ => file
  end.



(** What the iterator and [writeOut] leave of the limiter's own
    variables: everything. *)
Definition same_control (s s' : EmitState) : Prop :=
  es_keys s' = es_keys s ∧ es_size s' = es_size s ∧ es_completed s' = es_completed s ∧
  es_inflight s' = es_inflight s ∧ es_callback s' = es_callback s ∧
  es_thrown s' = es_thrown s ∧ es_outputPath s' = es_outputPath s.



(** ** The limiter in small steps

    One call of [forEachLimit], and each completion, is a sequence of
    the following steps.  With [errors = false] the file system answers
    without error and the final callback is called with null. *)

(** Adding the outcome of an iterator or [writeOut] call. *)
Definition settle (r : Started * EmitState) : EmitState :=
  match r with
  | (Pending t, s1) => set_inflight (es_inflight s1 ++ [t]) s1
  | (CompletedSync, s1) => s1
  | (ThrewSync message, s1) => set_thrown message s1
  end.

Inductive micro {E : Collaborators} (errors : bool) : EmitState → EmitState → Prop :=
| micro_start (s : EmitState) (file : string) (rest : list string) :
    (* iterate(): the iterator is called for the next key *)
    es_keys s = file :: rest → es_callback s = None → es_thrown s = None →
    micro errors s (settle (iterator file (set_keys rest s)))
| micro_count (s : EmitState) :
    (* ++completed *)
    es_thrown s = None →
    micro errors s (set_completed (S (es_completed s)) s)
| micro_final (s : EmitState) (err : option string) :
    (* callback(err) *)
    (is_Some err → errors = true) →
    micro errors s (call_final err s)
| micro_mkdirp (s : EmitState) (k : nat) (file targetFile : string) (source : SourceId) :
    (* mkdirp answered without error: writeOut() *)
    es_thrown s = None →
    es_inflight s !! k = Some (AwaitMkdirp file targetFile source) →
    micro errors s
      (settle (writeOut file targetFile source (set_inflight (delete k (es_inflight s)) s)))
| micro_written (s : EmitState) (k : nat) (file targetPath : string) (source : SourceId)
    (targetFileGeneration : option nat) :
    (* writeFile of caching mode answered without error *)
    es_thrown s = None →
    es_inflight s !! k = Some (AwaitWriteFile file targetPath source targetFileGeneration) →
    micro errors s
      (record_write file targetPath source targetFileGeneration
         (set_inflight (delete k (es_inflight s)) s))
| micro_written_legacy (s : EmitState) (k : nat) (file targetPath : string) :
    (* writeFile of legacy mode answered without error *)
    es_thrown s = None →
    es_inflight s !! k = Some (AwaitWriteFileLegacy file targetPath) →
    micro errors s (set_inflight (delete k (es_inflight s)) s)
| micro_failed (s : EmitState) (k : nat) (t : Task) :
    (* mkdirp or writeFile answered with an error *)
    errors = true →
    es_thrown s = None →
    es_inflight s !! k = Some t →
    micro errors s (set_inflight (delete k (es_inflight s)) s).

(** ** Caching mode: stand-ins and generations *)

(** [this.outputFileSystem.join(outputPath, targetFile)] for a key. *)
Definition path_of {E : Collaborators} (outputPath file : string) : string :=
  fs_join outputPath (targetFile_of file).


(** [cacheEntry.writtenTo.get(path)] of the cache entry of [source]. *)
Definition gen_of (this : Compiler) (source : SourceId) (path : string) : option nat :=
  cacheEntry ← _assetEmittingSourceCache this !! source; writtenTo cacheEntry !! path.


(** [assets[file]] is a size-only object that stands for the [content]
    written to [targetPath]. *)
Definition standin (s : EmitState) (file targetPath : string) (content : list ascii)
  : Prop :=
  ∃ sizeOnly,
    assets_get file (assets (es_compilation s)) = Some sizeOnly ∧
    sources (es_world s) !! sizeOnly = Some (SizeOnlySource (length content)) ∧
    EWriteFile targetPath content ∈ trace (es_world s).

(** The invariant of a caching-mode call, errors or not:
    - the keys to start and the calls in flight are for distinct files;
    - a call waiting for [mkdirp] carries the target file of its key;
    - while a write is in flight, [assets[file]] already is the
      stand-in, the content object [source] itself is still readable
      and has its cache entry;
    - a file that this call added to [emittedAssets] is neither to start
      nor in flight, and [assets[file]] is the stand-in of what was
      written. *)
Definition caching_inv {E : Collaborators} (emitted0 : gset string) (s : EmitState) : Prop :=
  futureEmitAssets (es_this s) = true ∧
  NoDup (es_keys s ++ (task_file <$> es_inflight s)) ∧
  (∀ file targetFile source, AwaitMkdirp file targetFile source ∈ es_inflight s →
     targetFile = targetFile_of file) ∧
  (∀ file targetPath source g, AwaitWriteFile file targetPath source g ∈ es_inflight s →
     targetPath = path_of (es_outputPath s) file ∧
     is_Some (_assetEmittingSourceCache (es_this s) !! source) ∧
     ∃ content,
       standin s file targetPath content ∧
       Source_content <$> sources (es_world s) !! source = Some (Returned content)) ∧
  (∀ file, file ∈ emittedAssets (es_compilation s) → file ∉ emitted0 →
     (file ∉ es_keys s) ∧ (file ∉ task_file <$> es_inflight s) ∧
     ∃ content, standin s file (path_of (es_outputPath s) file) content).

(** The state with which the iterator or [writeOut] is entered for
    [file]: [file] is neither to start, nor in flight, nor recorded as
    emitted by this call. *)
Definition entered {E : Collaborators} (emitted0 : gset string) (file : string)
    (s : EmitState) : Prop :=
  caching_inv emitted0 s ∧ (file ∉ es_keys s) ∧ (file ∉ task_file <$> es_inflight s) ∧
  (file ∈ emittedAssets (es_compilation s) → file ∈ emitted0).


(** What starting calls (the iterator, [writeOut], [iterate], [done]
    itself) leaves alone: the generation of every path, the generation
    every content object was written at, and [emittedAssets]. *)
Definition same_generations (s s' : EmitState) : Prop :=
  _assetEmittingWrittenFiles (es_this s') = _assetEmittingWrittenFiles (es_this s) ∧
  (∀ source path, gen_of (es_this s') source path = gen_of (es_this s) source path) ∧
  emittedAssets (es_compilation s') = emittedAssets (es_compilation s).





(** ** Calling hooks *)

(** Modelled from the spec: the hook classes of the package tapable,
    which is not among the sources (spec 4.1).  "Async-series: invokes
    taps one at a time; ... a failure aborts the remaining series and
    surfaces to the caller's continuation."  "Async-parallel: starts all
    taps concurrently; the bus settles with the first failure reported,
    but already-started taps are not cancelled."  "Sync-sequential:
    invokes every tap in order; return value ignored."  "Sync-bail:
    invokes taps in order; stops and returns the first tap result that
    is not empty/undefined."  Taps of sync hooks are taken to return. *)

Definition taps_of (this : Compiler) (hook : string) : list Tap :=
  default [] (hooks this !! hook).

Fixpoint series {E : Collaborators} (hook : string) (taps : list Tap) (tr : list Event)
  : option string * list Event :=
  match taps with
  | [] => (None, tr)
  | t :: rest =>
    let tr1 := tr ++ [ETap hook t] in
    match tap_callAsync hook t tr1 with
    | Some err => (Some err, tr1)
    | None => series hook rest tr1
    end
  end.

Fixpoint parallel {E : Collaborators} (hook : string) (taps : list Tap) (tr : list Event)
  : option string * list Event :=
  match taps with
  | [] => (None, tr)
  | t :: rest =>
    let tr1 := tr ++ [ETap hook t] in
    let '(err, tr2) := parallel hook rest tr1 in
    (match tap_callAsync hook t tr1 with
     | Some e => Some e
     | None => err
     end, tr2)
  end.

Fixpoint bail {E : Collaborators} (hook : string) (taps : list Tap) (tr : list Event)
  : jsval * list Event :=
  match taps with
  | [] => (VUndefined, tr)
  | t :: rest =>
    let tr1 := tr ++ [ETap hook t] in
    match tap_call_bail hook t tr1 with
    | VUndefined => bail hook rest tr1
    | v => (v, tr1)
    end
  end.

Definition set_trace (w : World) (tr : list Event) : World :=
  mkWorld (heap w) (sources w) tr.

(** [this.hooks.<hook>.callAsync(..., err => ...)] of an AsyncSeriesHook. *)
Definition callAsync {E : Collaborators} (hook : string) (this : Compiler) (w : World)
  : option string * World :=
  let '(err, tr) := series hook (taps_of this hook) (trace w ++ [EHook hook]) in
  (err, set_trace w tr).

(** The same for the AsyncParallelHook [make]. *)
Definition callAsync_parallel {E : Collaborators} (hook : string) (this : Compiler)
    (w : World) : option string * World :=
  let '(err, tr) := parallel hook (taps_of this hook) (trace w ++ [EHook hook]) in
  (err, set_trace w tr).

(** [this.hooks.<hook>.call(...)] of a SyncHook. *)
Definition call {E : Collaborators} (hook : string) (this : Compiler) (w : World) : World :=
  set_trace w (trace w ++ EHook hook :: (ETap hook <$> taps_of this hook)).

(** [this.hooks.<hook>.call(...)] of a SyncBailHook. *)
Definition call_bail {E : Collaborators} (hook : string) (this : Compiler) (w : World)
  : jsval * World :=
  let '(v, tr) := bail hook (taps_of this hook) (trace w ++ [EHook hook]) in
  (v, set_trace w tr).

(** The events that happened after the history [before]. *)
Definition events_since (before : list Event) (w : World) : list Event :=
  drop (length before) (trace w).

(** ** The asynchronous methods *)

(** How an asynchronous method ends: its callback is called without or
    with an error, or an exception leaves it and the callback is never
    called, or the embedding ran out of fuel. *)
Inductive async (A : Type) :=
| Ok (a : A)
| Err (err : string)
| Uncaught (message : string)
| OutOfFuel.
Arguments Ok {A} a.
Arguments Err {A} err.
Arguments Uncaught {A} message.
Arguments OutOfFuel {A}.

Definition ConcurrentCompilationError : string :=
  "ConcurrentCompilationError: You ran Webpack twice. Each instance only supports a single concurrent compilation at a time.".

(** [!path] for a path that is a string or null. *)
Definition unset (path : option string) : bool :=
  match path with
  | None => true
  | Some p => bool_decide (p = "")
  end.

Definition set_records (v : jsval) (this : Compiler) : Compiler :=
  {| hooks := hooks this; name := name this; parentCompilation := parentCompilation this;
     outputPath := outputPath this; outputFileSystem := outputFileSystem this;
     inputFileSystem := inputFileSystem this; recordsInputPath := recordsInputPath this;
     recordsOutputPath := recordsOutputPath this; records := v;
     removedFiles := removedFiles this; fileTimestamps := fileTimestamps this;
     contextTimestamps := contextTimestamps this; resolverFactory := resolverFactory this;
     options_output := options_output this; context := context this;
     running := running this; watchMode := watchMode this;
     _assetEmittingSourceCache := _assetEmittingSourceCache this;
     _assetEmittingWrittenFiles := _assetEmittingWrittenFiles this |}.

Definition set_running (b : bool) (this : Compiler) : Compiler :=
  {| hooks := hooks this; name := name this; parentCompilation := parentCompilation this;
     outputPath := outputPath this; outputFileSystem := outputFileSystem this;
     inputFileSystem := inputFileSystem this; recordsInputPath := recordsInputPath this;
     recordsOutputPath := recordsOutputPath this; records := records this;
     removedFiles := removedFiles this; fileTimestamps := fileTimestamps this;
     contextTimestamps := contextTimestamps this; resolverFactory := resolverFactory this;
     options_output := options_output this; context := context this;
     running := b; watchMode := watchMode this;
     _assetEmittingSourceCache := _assetEmittingSourceCache this;
     _assetEmittingWrittenFiles := _assetEmittingWrittenFiles this |}.

(** Lines 993-1018. *)
Definition readRecords {E : Collaborators} (this : Compiler) (w : World)
  : async unit * Compiler * World :=
  let w := log (EMethod "readRecords") w in
  match recordsInputPath this with
  | Some path =>
    if unset (Some path) then
      let '(r, h) := alloc (JObject ∅) (heap w) in
      (Ok (), set_records (VRef r) this, mkWorld h (sources w) (trace w))
    else
      let w := log (EStat path) w in
      match inputFileSystem_stat path (trace w) with
      | Some _ => (Ok (), this, w)
      | None =>
        let w := log (EReadFile path) w in
        match inputFileSystem_readFile path (trace w) with
        | inl err => (Err err, this, w)
        | inr content =>
          match parseJson content (heap w) with
          | inl message => (Err ("Cannot parse records: " +:+ message), this, w)
          | inr (v, h) => (Ok (), set_records v this, mkWorld h (sources w) (trace w))
          end
        end
      end
  | None =>
    let '(r, h) := alloc (JObject ∅) (heap w) in
    (Ok (), set_records (VRef r) this, mkWorld h (sources w) (trace w))
  end.

(** Lines 969-991. *)
Definition emitRecords {E : Collaborators} (this : Compiler) (w : World)
  : async unit * World :=
  let w := log (EMethod "emitRecords") w in
  match recordsOutputPath this with
  | Some path =>
    if unset (Some path) then (Ok (), w)
    else
      let idx1 := lastIndexOf "/" path in
      let idx2 := lastIndexOf "\" path in
      let recordsOutputPathDirectory :=
        if (idx2 <? idx1)%Z then Some (substr0 path idx1)
        else if (idx1 <? idx2)%Z then Some (substr0 path idx2)
        else None in
      let writeFile (w : World) : async unit * World :=
        let content := JSON_stringify (records this) (heap w) in
        let w := log (EWriteRecords path content) w in
        match outputFileSystem_writeFile path content (trace w) with
        | Some err => (Err err, w)
        | None => (Ok (), w)
        end in
      if unset recordsOutputPathDirectory then writeFile w
      else
        let dir := default "" recordsOutputPathDirectory in
        let w := log (EMkdirp dir) w in
        match outputFileSystem_mkdirp dir (trace w) with
        | Some err => (Err err, w)
        | None => writeFile w
        end
  | None => (Ok (), w)
  end.

(** Lines 847-958, [emitFiles] without error, up to the final callback
    of [forEachLimit]: the writes complete as the file system schedules
    them.  Each completion settles one of the at most two answers that
    a key needs. *)
Definition emitFiles {E : Collaborators} (outputPath : string) (this : Compiler)
    (compilation : Compilation) (w : World) : EmitState :=
  let s0 := forEachLimit 15 outputPath this compilation w in
  drive (emit_schedule (trace w)) 0 (2 * es_size s0) s0.

(** Lines 844-967.  The compilation is returned as the writes left it.
    Writes still in flight when the first error calls the callback are
    not followed further. *)
Definition emitAssets {E : Collaborators} (compilation : Compilation) (this : Compiler)
    (w : World) : async Compilation * Compiler * World :=
  let w := log (EMethod "emitAssets") w in
  match callAsync "emit" this w with
  | (Some err, w) => (Err err, this, w)
  | (None, w) =>
    let outputPath := getPath (outputPath this) in
    let w := log (EMkdirp outputPath) w in
    match outputFileSystem_mkdirp outputPath (trace w) with
    | Some err => (Err err, this, w)
    | None =>
      let s := emitFiles outputPath this compilation w in
      match es_thrown s, es_callback s with
      | Some message, _ => (Uncaught message, es_this s, es_world s)
      | None, Some (Some err) => (Err err, es_this s, es_world s)
      | None, Some None =>
        match callAsync "afterEmit" (es_this s) (es_world s) with
        | (Some err, w) => (Err err, es_this s, w)
        | (None, w) => (Ok (es_compilation s), es_this s, w)
        end
      | None, None => (OutOfFuel, es_this s, es_world s)
      end
    end
  end.

(** Lines 1068-1135: [compile], with [newCompilationParams] and
    [newCompilation].  The Compilation is what its class and the taps of
    [make] leave after [seal]. *)
Definition compile {E : Collaborators} (this : Compiler) (w : World)
  : async Compilation * World :=
  let w := log (EMethod "compile") w in
  let w := call "normalModuleFactory" this w in
  let w := call "contextModuleFactory" this w in
  match callAsync "beforeCompile" this w with
  | (Some err, w) => (Err err, w)
  | (None, w) =>
    let w := call "compile" this w in
    let w := call "thisCompilation" this w in
    let w := call "compilation" this w in
    match callAsync_parallel "make" this w with
    | (Some err, w) => (Err err, w)
    | (None, w) =>
      let w := log EFinish w in
      match compilation_finish (trace w) with
      | Some err => (Err err, w)
      | None =>
        let w := log ESeal w in
        match compilation_seal (trace w) with
        | Some err => (Err err, w)
        | None =>
          let '(compilation, srcs) := compilation_sealed (trace w) (sources w) in
          let w := mkWorld (heap w) srcs (trace w) in
          match callAsync "afterCompile" this w with
          | (Some err, w) => (Err err, w)
          | (None, w) => (Ok compilation, w)
          end
        end
      end
    end
  end.

(** [new Stats(compilation)] with its two time stamps. *)
Record Stats := mkStats {
  stats_compilation : Compilation;
  startTime : Z;
  endTime : Z
}.

(** The end of a pass: [new Stats], then the [done] hook (lines 758-765,
    775-779 and 794-801). *)
Definition done_with_stats {E : Collaborators} (startTime : Z) (compilation : Compilation)
    (this : Compiler) (w : World) : async Stats * World :=
  let stats := mkStats compilation startTime (Date_now (trace w)) in
  match callAsync "done" this w with
  | (Some err, w) => (Err err, w)
  | (None, w) => (Ok stats, w)
  end.

(** Lines 753-804: [onCompiled] for a compilation that [compile]
    delivered without error.  [fuel] bounds the number of further
    passes. *)
Fixpoint onCompiled {E : Collaborators} (fuel : nat) (startTime : Z)
    (compilation : Compilation) (this : Compiler) (w : World)
  : async Stats * Compiler * World :=
  let '(should, w) := call_bail "shouldEmit" this w in
  if bool_decide (should = VBool false) then
    let '(r, w) := done_with_stats startTime compilation this w in (r, this, w)
  else
    match emitAssets compilation this w with
    | (Ok compilation, this, w) =>
      let w := log ENeedAdditionalPass w in
      if truthy (compilation_hooks_needAdditionalPass compilation (trace w)) then
        let compilation :=
          mkCompilation (assets compilation) (emittedAssets compilation) true in
        match done_with_stats startTime compilation this w with
        | (Ok _, w) =>
          match callAsync "additionalPass" this w with
          | (Some err, w) => (Err err, this, w)
          | (None, w) =>
            match fuel with
            | 0 => (OutOfFuel, this, w)
            | S fuel' =>
              match compile this w with
              | (Ok compilation, w) => onCompiled fuel' startTime compilation this w
              | (Err err, w) => (Err err, this, w)
              | (Uncaught message, w) => (Uncaught message, this, w)
              | (OutOfFuel, w) => (OutOfFuel, this, w)
              end
            end
          end
        | (Err err, w) => (Err err, this, w)
        | (Uncaught message, w) => (Uncaught message, this, w)
        | (OutOfFuel, w) => (OutOfFuel, this, w)
        end
      else
        match emitRecords this w with
        | (Ok _, w) =>
          let '(r, w) := done_with_stats startTime compilation this w in (r, this, w)
        | (Err err, w) => (Err err, this, w)
        | (Uncaught message, w) => (Uncaught message, this, w)
        | (OutOfFuel, w) => (OutOfFuel, this, w)
        end
    | (Err err, this, w) => (Err err, this, w)
    | (Uncaught message, this, w) => (Uncaught message, this, w)
    | (OutOfFuel, this, w) => (OutOfFuel, this, w)
    end.

(** Lines 739-746: [finalCallback].  What the callback of [run] is
    called with is the returned value. *)
Definition finalCallback {E : Collaborators} {A : Type} (r : async A) (this : Compiler)
    (w : World) : async A * Compiler * World :=
  match r with
  | Ok a => (Ok a, set_running false this, w)
  | Err err =>
    let this := set_running false this in
    (Err err, this, call "failed" this w)
  | Uncaught message => (Uncaught message, this, w)
  | OutOfFuel => (OutOfFuel, this, w)
  end.

(** Lines 735-819: [run(callback)].  The returned value is what
    [callback] is called with. *)
Definition run {E : Collaborators} (fuel : nat) (this : Compiler) (w : World)
  : async Stats * Compiler * World :=
  if running this then (Err ConcurrentCompilationError, this, w)
  else
    let startTime := Date_now (trace w) in
    let this := set_running true this in
    match callAsync "beforeRun" this w with
    | (Some err, w) => finalCallback (Err err) this w
    | (None, w) =>
      match callAsync "run" this w with
      | (Some err, w) => finalCallback (Err err) this w
      | (None, w) =>
        match readRecords this w with
        | (Ok _, this, w) =>
          match compile this w with
          | (Ok compilation, w) =>
            let '(r, this, w) := onCompiled fuel startTime compilation this w in
            finalCallback r this w
          | (Err err, w) => finalCallback (Err err) this w
          | (Uncaught message, w) => (Uncaught message, this, w)
          | (OutOfFuel, w) => (OutOfFuel, this, w)
          end
        | (Err err, this, w) => finalCallback (Err err) this w
        | (Uncaught message, this, w) => (Uncaught message, this, w)
        | (OutOfFuel, this, w) => (OutOfFuel, this, w)
        end
      end
    end.

Definition set_watch (this : Compiler) : Compiler :=
  {| hooks := hooks this; name := name this; parentCompilation := parentCompilation this;
     outputPath := outputPath this; outputFileSystem := outputFileSystem this;
     inputFileSystem := inputFileSystem this; recordsInputPath := recordsInputPath this;
     recordsOutputPath := recordsOutputPath this; records := records this;
     removedFiles := ∅; fileTimestamps := ∅;
     contextTimestamps := ∅; resolverFactory := resolverFactory this;
     options_output := options_output this; context := context this;
     running := true; watchMode := true;
     _assetEmittingSourceCache := _assetEmittingSourceCache this;
     _assetEmittingWrittenFiles := _assetEmittingWrittenFiles this |}.

(** Lines 724-733: [watch(watchOptions, handler)].  [Err] is what
    [handler] is called with; [Ok] stands for the returned Watching
    (class not in this file). *)
Definition watch {E : Collaborators} (this : Compiler) (w : World)
  : async unit * Compiler * World :=
  if running this then (Err ConcurrentCompilationError, this, w)
  else (Ok (), set_watch this, log ENewWatching w).

(** The Compiler as the stages of one [run] cycle hold it between the
    setting of [running] (line 750) and [finalCallback]: [readRecords]
    and [emitAssets] are the stages that write fields. *)
Inductive in_flight {E : Collaborators} (this0 : Compiler) : Compiler → Prop :=
| in_flight_started :
    running this0 = false → in_flight this0 (set_running true this0)
| in_flight_readRecords (c c' : Compiler) (w w' : World) (r : async unit) :
    in_flight this0 c → readRecords c w = (r, c', w') → in_flight this0 c'
| in_flight_emitAssets (c c' : Compiler) (compilation : Compilation) (w w' : World)
    (r : async Compilation) :
    in_flight this0 c → emitAssets compilation c w = (r, c', w') → in_flight this0 c'.

(** ** Builds without failure *)









(** ** Concrete collaborators and objects used in the examples *)

Definition demo_collaborators : Collaborators :=
  {| makePathsRelative := fun _ n => n;
     parseJson := fun _ h => inl "Unexpected token";
     path_dirname := fun p => p;
     fs_join := fun a b => a +:+ "/" +:+ b;
     getPath := fun p => p;
     compilation_hooks_childCompiler := fun _ _ _ _ => None;
     tap_callAsync := fun _ _ _ => None;
     tap_call_bail := fun _ _ _ => VUndefined;
     inputFileSystem_stat := fun _ _ => None;
     inputFileSystem_readFile := fun _ _ => inr "not json";
     outputFileSystem_mkdirp := fun _ _ => None;
     outputFileSystem_writeFile := fun _ _ _ => None;
     compilation_finish := fun _ => None;
     compilation_seal := fun _ => None;
     compilation_sealed := fun _ srcs => (mkCompilation [] ∅ false, srcs);
     compilation_hooks_needAdditionalPass := fun _ _ => VUndefined;
     Date_now := fun tr => Z.of_nat (length tr);
     JSON_stringify := fun _ _ => [];
     emit_schedule := fun _ _ => (0, None) |}.

Definition tapA : Tap := mkTap "PluginA" TapSync 1.
Definition tapB : Tap := mkTap "PluginB" TapAsync 2.

Definition empty_heap : Heap := mkHeap ∅.

(** A parent compiler on which a plugin has created a hook of its own,
    [compiler.hooks.myCustomHook = new SyncHook(...)], and tapped it. *)
Definition fresh_parent : Compiler := fst (new_Compiler "/ctx" empty_heap).
Definition fresh_parent_heap : Heap := snd (new_Compiler "/ctx" empty_heap).

Definition parent_with_custom_hook : Compiler :=
  set_hooks fresh_parent
    (<["myCustomHook" := [tapA]]> (<["afterCompile" := [tapA; tapB]]> (hooks fresh_parent))).

(** A compiler in caching mode ([output.futureEmitAssets]) that writes
    to /dist. *)
Definition caching_parent : Compiler :=
  {| hooks := hooks fresh_parent; name := None; parentCompilation := None;
     outputPath := "/dist"; outputFileSystem := None; inputFileSystem := None;
     recordsInputPath := None; recordsOutputPath := None;
     records := records fresh_parent;
     removedFiles := ∅; fileTimestamps := ∅; contextTimestamps := ∅;
     resolverFactory := 0;
     options_output := {["futureEmitAssets" := VBool true]};
     context := "/ctx"; running := false; watchMode := false;
     _assetEmittingSourceCache := ∅; _assetEmittingWrittenFiles := ∅ |}.

(** Two content objects, and compilations that hold them as assets. *)
Definition demo_sources : gmap SourceId Source :=
  {[ 1 := ContentSource (IsString "console.log(1)") None None None;
     2 := ContentSource (IsString "export {}") None None None ]}.

Definition demo_world : World := mkWorld fresh_parent_heap demo_sources [].

Definition one_asset : Compilation := mkCompilation [("main.js", 1)] ∅ false.


(** Collaborators that differ in the answers of the file system to the
    asset writes, or in the taps of [needAdditionalPass]. *)
Definition with_emit_schedule (E : Collaborators)
    (schedule : list Event → nat → nat * option string) : Collaborators :=
  {| makePathsRelative := @makePathsRelative E;
     parseJson := @parseJson E;
     path_dirname := @path_dirname E;
     fs_join := @fs_join E;
     getPath := @getPath E;
     compilation_hooks_childCompiler := @compilation_hooks_childCompiler E;
     tap_callAsync := @tap_callAsync E;
     tap_call_bail := @tap_call_bail E;
     inputFileSystem_stat := @inputFileSystem_stat E;
     inputFileSystem_readFile := @inputFileSystem_readFile E;
     outputFileSystem_mkdirp := @outputFileSystem_mkdirp E;
     outputFileSystem_writeFile := @outputFileSystem_writeFile E;
     compilation_finish := @compilation_finish E;
     compilation_seal := @compilation_seal E;
     compilation_sealed := @compilation_sealed E;
     compilation_hooks_needAdditionalPass := @compilation_hooks_needAdditionalPass E;
     Date_now := @Date_now E;
     JSON_stringify := @JSON_stringify E;
     emit_schedule := schedule |}.


(** The file system fails every asset write. *)
Definition failing_writes : Collaborators :=
  with_emit_schedule demo_collaborators (fun _ _ => (0, Some "EIO: i/o error")).


(** * Theorems *)

(** ** createChildCompiler: hooks *)

Lemma copy_taps_lookup (this_hooks child_hooks : Hooks) (n : string) :
  copy_taps this_hooks child_hooks !! n =
    match child_hooks !! n with
    | None => None
    | Some child_taps =>
      if bool_decide (n ∈ excluded_hooks) then Some child_taps
      else match this_hooks !! n with
           | Some taps => Some taps
           | None => Some child_taps
           end
    end.
Proof.
  unfold copy_taps.
  apply (map_fold_weak_ind
    (fun (r : Hooks) (m : Hooks) =>
       r !! n = match child_hooks !! n with
                | None => None
                | Some child_taps =>
                  if bool_decide (n ∈ excluded_hooks) then Some child_taps
                  else match m !! n with
                       | Some taps => Some taps
                       | None => Some child_taps
                       end
                end)).
  - rewrite lookup_empty. destruct (child_hooks !! n); [|done].
    by destruct (bool_decide _).
  - intros k taps m r Hk IH.
    destruct (bool_decide (k ∈ excluded_hooks)) eqn:Hex.
    + rewrite IH. destruct (child_hooks !! n) as [ct|]; [|done].
      destruct (bool_decide (n ∈ excluded_hooks)) eqn:Hexn; [done|].
      destruct (decide (k = n)) as [->|Hne]; [congruence|].
      by rewrite lookup_insert_ne.
    + destruct (decide (k = n)) as [->|Hne].
      * rewrite Hex, lookup_insert_eq.
        destruct (r !! n) as [rt|] eqn:Hr.
        -- rewrite lookup_insert_eq. destruct (child_hooks !! n); [done|congruence].
        -- rewrite Hr. destruct (child_hooks !! n); [|done].
           rewrite Hex, Hk in IH. congruence.
      * rewrite (lookup_insert_ne m) by done.
        destruct (r !! k); [rewrite lookup_insert_ne by done|]; exact IH.
Qed.

Lemma constructor_hooks_present (context : string) (h : Heap) (n : string) :
  n ∈ constructor_hook_names →
  hooks (new_Compiler context h).1 !! n = Some [].
Proof.
  unfold new_Compiler, alloc. cbn [fst hooks]. intros Hn.
  unfold constructor_hooks. apply elem_of_list_to_map_1.
  - apply (bool_decide_unpack _). by vm_compute.
  - apply list_elem_of_fmap. by exists n.
Qed.

(** C6 (amended).  For a hook [n] of the parent with taps [taps]:
    when [n] is not one of make, compile, emit, afterEmit, invalid,
    done, thisCompilation and the child (after its own plugins were
    applied) has a hook of that name, the child's tap list becomes
    exactly [taps], in the parent's order; when [n] is one of the seven
    names the child keeps what its own plugins registered; a parent hook
    without a counterpart on the child is not copied.  Every hook the
    constructor creates has a counterpart when no plugins are given. *)
Theorem createChildCompiler_hooks {E : Collaborators} (this : Compiler) (compilation : nat)
    (compilerName : string) (compilerIndex : nat) (outputOptions : gmap string jsval)
    (plugins : option (list Plugin)) (h h' : Heap) (child : Compiler) :
  createChildCompiler this compilation compilerName compilerIndex
    outputOptions plugins h = Returned (child, h') →
  ∀ (n : string) (taps : list Tap),
    hooks this !! n = Some taps →
    let own := hooks (apply_plugins plugins (new_Compiler (context this) h).1) in
    (n ∉ excluded_hooks → is_Some (own !! n) → hooks child !! n = Some taps) ∧
    (n ∈ excluded_hooks → hooks child !! n = own !! n) ∧
    (own !! n = None → hooks child !! n = None) ∧
    (plugins = None → n ∈ constructor_hook_names → n ∉ excluded_hooks →
     hooks child !! n = Some taps).
Proof.
  intros Hc n taps Hn own. unfold createChildCompiler in Hc.
  destruct (new_Compiler (context this) h) as [c0 h0] eqn:Hnew.
  destruct (child_records _ _ _ _) as [[slot h1]| |]; [|done..].
  destruct (compilation_hooks_childCompiler _ _ _ _); [done|].
  injection Hc as <- <-. simpl.
  assert (Hl := copy_taps_lookup (hooks this) (hooks (apply_plugins plugins c0)) n).
  rewrite Hn in Hl. subst own. simpl in *.
  split_and!.
  - intros Hex [ct Hct]. rewrite Hl, Hct.
    by case_bool_decide.
  - intros Hex. rewrite Hl.
    destruct (hooks (apply_plugins plugins c0) !! n); [|done].
    by case_bool_decide.
  - intros Hnone. by rewrite Hl, Hnone.
  - intros -> Hctor Hex. rewrite Hl. simpl.
    assert (Hp := constructor_hooks_present (context this) h n Hctor).
    rewrite Hnew in Hp. simpl in Hp. rewrite Hp.
    by case_bool_decide.
Qed.

(** C6 as stated fails: a hook that exists only on the parent (created
    there by a plugin) is not excluded, yet the child, built by the
    constructor, has no hook of that name and receives nothing. *)
Lemma createChildCompiler_custom_hook_not_copied :
  hooks parent_with_custom_hook !! "myCustomHook" = Some [tapA] ∧
  ("myCustomHook" ∉ excluded_hooks) ∧
  match createChildCompiler (E:=demo_collaborators) parent_with_custom_hook 0 "sub" 0 ∅ None
          fresh_parent_heap with
  | Returned (child, _) => hooks child !! "myCustomHook" = None
  | _ => False
  end.
Proof.
  split_and!.
  - by vm_compute.
  - apply (bool_decide_unpack _). by vm_compute.
  - by vm_compute.
Qed.

Lemma createChildCompiler_hooks_witness :
  ∃ (child : Compiler) (h' : Heap),
    createChildCompiler (E:=demo_collaborators) parent_with_custom_hook 0 "sub" 0 ∅ None
      fresh_parent_heap = Returned (child, h') ∧
    hooks child !! "afterCompile" = Some [tapA; tapB].
Proof.
  destruct (createChildCompiler (E:=demo_collaborators) parent_with_custom_hook 0 "sub" 0 ∅ None
      fresh_parent_heap) as [[child h']| |] eqn:Hc; [|by vm_compute in Hc..].
  exists child, h'. split; [done|].
  assert (hooks parent_with_custom_hook !! "afterCompile" = Some [tapA; tapB]) as Hn
    by (by vm_compute).
  destruct (createChildCompiler_hooks (E:=demo_collaborators) _ _ _ _ _ _ _ _ _ Hc
              "afterCompile" [tapA; tapB] Hn) as (_ & _ & _ & Hcopied).
  apply Hcopied; [done | |]; apply (bool_decide_unpack _); by vm_compute.
Defined.

(** ** createChildCompiler: the record slot *)























(** ** The limiter: what it leaves alone *)

Lemma emit_frame_refl (s : EmitState) : emit_frame s s.
Proof.
  unfold emit_frame. split_and!; try done.
  - exists []. by rewrite app_nil_r.
  - by destruct (es_this s).
Qed.

Lemma emit_frame_trans (s1 s2 s3 : EmitState) :
  emit_frame s1 s2 → emit_frame s2 s3 → emit_frame s1 s3.
Proof.
  intros ((a1 & Ht1 & Hf1) & Hh1 & Hc1 & Ho1 & Hs1) ((a2 & Ht2 & Hf2) & Hh2 & Hc2 & Ho2 & Hs2).
  unfold emit_frame. split_and!; try congruence.
  - exists (a1 ++ a2). rewrite Ht2, Ht1, app_assoc. split; [done|]. by apply Forall_app.
  - rewrite Hc2 at 1. rewrite Hc1 at 1. done.
Qed.

Ltac frame_here :=
  unfold emit_frame; simpl; split_and!;
  [ first [ by (exists []; rewrite app_nil_r)
          | by (eexists [_]; split; [reflexivity|repeat constructor]) ]
  | done
  | by (destruct (es_this _))
  | done
  | done ].

Lemma writeOut_frame {E : Collaborators} (file targetFile : string) (source : SourceId)
    (s : EmitState) :
  emit_frame s (writeOut file targetFile source s).2.
Proof.
  unfold writeOut.
  destruct (futureEmitAssets (es_this s)).
  - destruct (_assetEmittingSourceCache (es_this s) !! source) as [ce|];
      repeat case_match; frame_here.
  - repeat case_match; try apply emit_frame_refl; frame_here.
Qed.

Lemma iterator_frame {E : Collaborators} (file : string) (s : EmitState) :
  emit_frame s (iterator file s).2.
Proof.
  unfold iterator. repeat case_match; try apply emit_frame_refl.
  - frame_here.
  - apply writeOut_frame.
Qed.

Lemma set_keys_frame (keys : list string) (s : EmitState) : emit_frame s (set_keys keys s).
Proof. frame_here. Qed.

Lemma set_inflight_frame (tasks : list Task) (s : EmitState) :
  emit_frame s (set_inflight tasks s).
Proof. frame_here. Qed.

Lemma set_completed_frame (n : nat) (s : EmitState) : emit_frame s (set_completed n s).
Proof. frame_here. Qed.

Lemma set_thrown_frame (message : string) (s : EmitState) :
  emit_frame s (set_thrown message s).
Proof. frame_here. Qed.

Lemma call_final_frame (err : option string) (s : EmitState) :
  emit_frame s (call_final err s).
Proof. unfold call_final. destruct (es_callback s); [apply emit_frame_refl|frame_here]. Qed.

(** Peels the setters off [emit_frame s (f1 (f2 (... s)))]. *)
Ltac frame_peel :=
  solve [repeat first
    [ apply emit_frame_refl
    | eassumption
    | eapply emit_frame_trans;
      [| first [ apply set_keys_frame | apply set_inflight_frame
               | apply set_completed_frame | apply set_thrown_frame
               | apply call_final_frame ] ] ] ].

Lemma iterate_frame {E : Collaborators} (keys : list string) (s : EmitState) :
  emit_frame s (iterate keys s).
Proof.
  revert s. induction keys as [|file rest IH]; intros s; simpl; [frame_peel|].
  assert (Hit := iterator_frame file (set_keys rest s)).
  destruct (iterator file (set_keys rest s)) as [[t| |message] s1]; simpl in Hit.
  - frame_peel.
  - case_decide; [|eapply emit_frame_trans; [|apply IH]]; frame_peel.
  - frame_peel.
Qed.

Lemma iterate_next_frame {E : Collaborators} (s : EmitState) :
  emit_frame s (iterate_next s).
Proof.
  unfold iterate_next. repeat case_match; auto using iterate_frame, emit_frame_refl.
Qed.

Lemma done_frame {E : Collaborators} (err : option string) (s : EmitState) :
  emit_frame s (done err s).
Proof.
  unfold done. destruct err; [frame_peel|].
  case_decide; [|eapply emit_frame_trans; [|apply iterate_next_frame]]; frame_peel.
Qed.

Lemma timesSync_frame {E : Collaborators} (n : nat) (s : EmitState) :
  emit_frame s (timesSync n s).
Proof.
  revert s. induction n as [|n IH]; intros s; simpl; [frame_peel|].
  eapply emit_frame_trans; [apply iterate_next_frame|apply IH].
Qed.

Lemma complete_frame {E : Collaborators} (k : nat) (err : option string) (s : EmitState) :
  emit_frame s (complete k err s).
Proof.
  unfold complete.
  destruct (es_thrown s); [simpl; frame_peel|].
  destruct (es_inflight s !! k) as [[file targetFile source|file targetPath source g|file targetPath]|];
    [| | |simpl; frame_peel].
  - destruct err; [eapply emit_frame_trans; [|apply done_frame]; frame_peel|].
    assert (Hw := writeOut_frame file targetFile source
                    (set_inflight (delete k (es_inflight s)) s)).
    destruct (writeOut _ _ _ _) as [[t| |message] s1]; simpl in Hw.
    + frame_peel.
    + eapply emit_frame_trans; [|apply done_frame]. frame_peel.
    + frame_peel.
  - destruct err; (eapply emit_frame_trans; [|apply done_frame]); [frame_peel|].
    eapply (emit_frame_trans _ (set_inflight (delete k (es_inflight s)) s));
      [apply set_inflight_frame|]. frame_here.
  - eapply emit_frame_trans; [|apply done_frame]. frame_peel.
Qed.

Lemma drive_frame {E : Collaborators} (schedule : nat → nat * option string)
    (n fuel : nat) (s : EmitState) :
  emit_frame s (drive schedule n fuel s).
Proof.
  revert n s. induction fuel as [|fuel IH]; intros n s; simpl; [frame_peel|].
  repeat case_match; try apply emit_frame_refl.
  eapply emit_frame_trans; [apply complete_frame|apply IH].
Qed.

Lemma forEachLimit_frame {E : Collaborators} (limit : nat) (outputPath : string)
    (this : Compiler) (compilation : Compilation) (w : World) :
  let s := forEachLimit limit outputPath this compilation w in
  (∃ added, trace (es_world s) = trace w ++ added ∧ Forall is_fs_event added) ∧
  heap (es_world s) = heap w ∧
  es_this s = set_emitting this (_assetEmittingSourceCache (es_this s))
                (_assetEmittingWrittenFiles (es_this s)) ∧
  es_outputPath s = outputPath ∧
  es_size s = length (assets compilation).
Proof.
  unfold forEachLimit.
  set (s0 := mkEmitState this compilation w outputPath _ _ 0 [] None None).
  assert (emit_frame s0 (if decide (length (assets compilation).*1 = 0 ∨ limit < 1)
                         then call_final None s0
                         else timesSync (limit `min` length (assets compilation).*1) s0))
    as (Ht & Hh & Hc & Ho & Hs).
  { case_decide; [frame_peel|apply timesSync_frame]. }
  simpl in *. split_and!; try done. by rewrite Hs, length_fmap.
Qed.

(** ** The limiter: at most [limit] calls in flight *)











(** The states that [drive] passes through are states of the call. *)
Lemma drive_emitting {E : Collaborators} (limit : nat) (outputPath : string)
    (this : Compiler) (compilation : Compilation) (w : World)
    (schedule : nat → nat * option string) (n fuel : nat) (s : EmitState) :
  emitting limit outputPath this compilation w s →
  emitting limit outputPath this compilation w (drive schedule n fuel s).
Proof.
  revert n s. induction fuel as [|fuel IH]; intros n s Hs; simpl; [done|].
  repeat case_match; try done. apply IH. by constructor.
Qed.

(** ** run and watch: the re-entrancy guard *)

(** C1.  On a Compiler whose [running] flag is true, [run] and [watch]
    pass a ConcurrentCompilationError to their callback at once, and
    return the Compiler and the stores exactly as they were: no field
    is written (fileTimestamps, contextTimestamps, removedFiles, records
    and [running] itself included), so whatever the call in flight goes
    on to compute from the Compiler and the world is the same as
    without the second call. *)
Theorem concurrent_call_rejected {E : Collaborators} (fuel : nat) (this : Compiler)
    (w : World) :
  running this = true →
  run fuel this w = (Err ConcurrentCompilationError, this, w) ∧
  watch this w = (Err ConcurrentCompilationError, this, w) ∧
  ∀ (R : Type) (rest_of_first_call : Compiler → World → R),
    (let '(_, this', w') := run fuel this w in rest_of_first_call this' w')
      = rest_of_first_call this w ∧
    (let '(_, this', w') := watch this w in rest_of_first_call this' w')
      = rest_of_first_call this w.
Proof.
  intros Hrun. unfold run, watch. rewrite Hrun. done.
Qed.

Lemma concurrent_call_rejected_witness :
  run (E:=demo_collaborators) 1 (set_running true fresh_parent)
      (mkWorld fresh_parent_heap ∅ [])
  = (Err ConcurrentCompilationError, set_running true fresh_parent,
     mkWorld fresh_parent_heap ∅ []).
Proof.
  apply (concurrent_call_rejected (E:=demo_collaborators) 1 (set_running true fresh_parent)).
  reflexivity.
Defined.

Lemma emitFiles_frame {E : Collaborators} (outputPath : string) (this : Compiler)
    (compilation : Compilation) (w : World) :
  let s := emitFiles outputPath this compilation w in
  (∃ added, trace (es_world s) = trace w ++ added ∧ Forall is_fs_event added) ∧
  heap (es_world s) = heap w ∧
  es_this s = set_emitting this (_assetEmittingSourceCache (es_this s))
                (_assetEmittingWrittenFiles (es_this s)) ∧
  es_outputPath s = outputPath.
Proof.
  unfold emitFiles.
  destruct (forEachLimit_frame 15 outputPath this compilation w)
    as ((a0 & Ht0 & Hf0) & Hh0 & Hc0 & Ho0 & _).
  set (s0 := forEachLimit 15 outputPath this compilation w) in *.
  destruct (drive_frame (emit_schedule (trace w)) 0 (2 * es_size s0) s0)
    as ((a & Ht & Hf) & Hh & Hc & Ho & _).
  split_and!.
  - exists (a0 ++ a). rewrite Ht, Ht0, app_assoc. split; [done|]. by apply Forall_app.
  - congruence.
  - rewrite Hc at 1. rewrite Hc0 at 1. done.
  - congruence.
Qed.

Lemma emitAssets_frame {E : Collaborators} (compilation : Compilation) (this this' : Compiler)
    (w w' : World) (r : async Compilation) :
  emitAssets compilation this w = (r, this', w') →
  this' = set_emitting this (_assetEmittingSourceCache this')
            (_assetEmittingWrittenFiles this') ∧
  heap w' = heap w.
Proof.
  unfold emitAssets.
  assert (∀ hook c w0, heap (callAsync hook c w0).2 = heap w0) as Hcall.
  { intros hook c w0. unfold callAsync. by destruct (series _ _ _). }
  assert (Hemit := Hcall "emit" this (log (EMethod "emitAssets") w)).
  destruct (callAsync "emit" this _) as [[err|] w1]; simpl in Hemit.
  { intros [= <- <- <-]. split; [by destruct this|done]. }
  destruct (outputFileSystem_mkdirp _ _).
  { intros [= <- <- <-]. split; [by destruct this|done]. }
  destruct (emitFiles_frame (getPath (outputPath this)) this compilation
              (log (EMkdirp (getPath (outputPath this))) w1)) as (_ & Hheap & Hthis & _).
  simpl in Hheap. rewrite Hemit in Hheap. simpl in Hheap.
  set (s := emitFiles _ _ _ _) in *.
  assert (Hafter := Hcall "afterEmit" (es_this s) (es_world s)).
  destruct (es_thrown s); [by intros [= <- <- <-]|].
  destruct (es_callback s) as [[err|]|]; [by intros [= <- <- <-]| |by intros [= <- <- <-]].
  destruct (callAsync "afterEmit" _ _) as [[err|] w2]; simpl in Hafter;
    intros [= <- <- <-]; split; congruence.
Qed.

Lemma readRecords_running {E : Collaborators} (this this' : Compiler) (w w' : World)
    (r : async unit) :
  readRecords this w = (r, this', w') → running this' = running this.
Proof.
  unfold readRecords. repeat case_match; by intros [= <- <- <-].
Qed.

(** Throughout a cycle in flight the flag is true, so a [run] or
    [watch] arriving at any stage is rejected as in C1. *)
Lemma in_flight_running {E : Collaborators} (this0 c : Compiler) :
  in_flight this0 c → running c = true.
Proof.
  induction 1 as [|c c' w w' r _ IH Hr|c c' comp w w' r _ IH He].
  - done.
  - by rewrite (readRecords_running _ _ _ _ _ Hr).
  - apply emitAssets_frame in He as [-> _]. done.
Qed.

Corollary in_flight_rejects {E : Collaborators} (fuel : nat) (this0 c : Compiler) (w : World) :
  in_flight this0 c →
  run fuel c w = (Err ConcurrentCompilationError, c, w) ∧
  watch c w = (Err ConcurrentCompilationError, c, w).
Proof.
  intros Hc%in_flight_running. unfold run, watch. by rewrite Hc.
Qed.

(** ** readRecords *)




(** ** The limiter: every key is written when nothing fails *)

Lemma same_control_refl (s : EmitState) : same_control s s.
Proof. by unfold same_control. Qed.

Lemma set_objects_control (s : EmitState) (this : Compiler) (compilation : Compilation)
    (w : World) :
  same_control s (set_objects s this compilation w).
Proof. by unfold same_control. Qed.

Lemma writeOut_control {E : Collaborators} (file targetFile : string) (source : SourceId)
    (s : EmitState) :
  same_control s (writeOut file targetFile source s).2.
Proof.
  unfold writeOut. destruct (futureEmitAssets (es_this s)).
  - destruct (_assetEmittingSourceCache (es_this s) !! source);
      repeat case_match; apply set_objects_control.
  - repeat case_match; first [apply set_objects_control|apply same_control_refl].
Qed.

Lemma iterator_control {E : Collaborators} (file : string) (s : EmitState) :
  same_control s (iterator file s).2.
Proof.
  unfold iterator. repeat case_match;
    first [apply set_objects_control|apply same_control_refl|apply writeOut_control].
Qed.



Lemma assets_get_set_ne (file f : string) (v : SourceId) (assets : Assets) :
  f ≠ file → assets_get f (assets_set file v assets) = assets_get f assets.
Proof.
  intros Hne. induction assets as [|[k w] rest IH]; simpl.
  - by rewrite decide_False.
  - destruct (decide (k = file)) as [->|Hk]; simpl.
    + by rewrite !decide_False by done.
    + destruct (decide (k = f)); [done|exact IH].
Qed.

Lemma assets_get_set_eq (file : string) (v : SourceId) (assets : Assets) :
  assets_get file (assets_set file v assets) = Some v.
Proof.
  induction assets as [|[k w] rest IH]; simpl.
  - by rewrite decide_True.
  - destruct (decide (k = file)) as [->|Hk]; simpl.
    + by rewrite decide_True.
    + by rewrite decide_False.
Qed.






Lemma NoDup_delete_move (keys : list string) (tasks : list Task) (k : nat) (t : Task) :
  tasks !! k = Some t →
  NoDup (keys ++ (task_file <$> tasks)) →
  NoDup (keys ++ (task_file <$> delete k tasks) ++ [task_file t]).
Proof.
  intros Hk Hnd.
  assert (task_file <$> tasks ≡ₚ (task_file <$> delete k tasks) ++ [task_file t]) as Hperm.
  { rewrite (delete_Permutation _ _ _ Hk) at 1. simpl.
    by rewrite Permutation_app_comm. }
  by rewrite <- Hperm.
Qed.








(** ** The limiter runs in small steps *)

Lemma micro_mono {E : Collaborators} (s s' : EmitState) :
  micro false s s' → micro true s s'.
Proof.
  destruct 1.
  - by apply micro_start.
  - by apply micro_count.
  - by apply micro_final.
  - by eapply micro_mkdirp.
  - by eapply micro_written.
  - by eapply micro_written_legacy.
  - done.
Qed.

Lemma rtc_micro_mono {E : Collaborators} (s s' : EmitState) :
  rtc (micro false) s s' → rtc (micro true) s s'.
Proof. induction 1; [done|]. eapply rtc_l; [by apply micro_mono|done]. Qed.

Lemma rtc_micro_errors {E : Collaborators} (errors : bool) (s s' : EmitState) :
  rtc (micro errors) s s' → rtc (micro true) s s'.
Proof. destruct errors; [done|apply rtc_micro_mono]. Qed.

Lemma iterate_micro {E : Collaborators} (keys : list string) (s : EmitState) :
  es_keys s = keys → es_callback s = None → es_thrown s = None →
  rtc (micro false) s (iterate keys s).
Proof.
  revert s. induction keys as [|file rest IH]; intros s Hkeys Hcb Hthrown; simpl; [done|].
  assert (Hstep := micro_start false s file rest Hkeys Hcb Hthrown).
  destruct (iterator_control file (set_keys rest s))
    as (Hc1 & Hc2 & Hc3 & Hc4 & Hc5 & Hc6 & Hc7).
  destruct (iterator file (set_keys rest s)) as [[t| |message] s1]; simpl in *.
  - by apply rtc_once.
  - eapply rtc_l; [exact Hstep|].
    eapply rtc_l; [apply micro_count; congruence|].
    case_decide.
    + apply rtc_once. by constructor.
    + apply IH; simpl; congruence.
  - by apply rtc_once.
Qed.

Lemma iterate_next_micro {E : Collaborators} (s : EmitState) :
  rtc (micro false) s (iterate_next s).
Proof.
  unfold iterate_next.
  destruct (es_callback s) eqn:Hcb; [done|].
  destruct (es_thrown s) eqn:Hthrown; [done|].
  by apply iterate_micro.
Qed.

Lemma timesSync_micro {E : Collaborators} (n : nat) (s : EmitState) :
  rtc (micro false) s (timesSync n s).
Proof.
  revert s. induction n as [|n IH]; intros s; simpl; [done|].
  etrans; [apply iterate_next_micro|apply IH].
Qed.

Lemma done_micro {E : Collaborators} (s : EmitState) :
  es_thrown s = None → rtc (micro false) s (done None s).
Proof.
  intros Hthrown. unfold done.
  eapply rtc_l; [by apply micro_count|].
  case_decide; [apply rtc_once; by constructor|apply iterate_next_micro].
Qed.

Lemma done_err_micro {E : Collaborators} (e : string) (s : EmitState) :
  rtc (micro true) s (done (Some e) s).
Proof. apply rtc_once. by constructor. Qed.

Lemma settle_thrown (r : Started) (s : EmitState) :
  (∀ message, r ≠ ThrewSync message) → es_thrown (settle (r, s)) = es_thrown s.
Proof. destruct r; simpl; try done. intros H. by destruct (H message). Qed.

(** One completion is a sequence of small steps; without error it
    needs none of the error steps. *)
Lemma complete_micro {E : Collaborators} (k : nat) (err : option string) (s : EmitState) :
  rtc (micro (bool_decide (is_Some err))) s (complete k err s).
Proof.
  unfold complete.
  destruct (es_thrown s) eqn:Hthrown; [done|].
  destruct (es_inflight s !! k) as [t|] eqn:Hk; [|done].
  destruct err as [e|].
  - (* an error answer *)
    rewrite bool_decide_eq_true_2 by eauto.
    assert (rtc (micro true) s (done (Some e) (set_inflight (delete k (es_inflight s)) s))).
    { eapply rtc_l; [by eapply (micro_failed true s k t)|]. apply done_err_micro. }
    by destruct t.
  - rewrite bool_decide_eq_false_2 by (by intros [??]).
    destruct t as [file targetFile source|file targetPath source g|file targetPath].
    + assert (Hstep := micro_mkdirp false s k file targetFile source Hthrown Hk).
      destruct (writeOut_control file targetFile source
                  (set_inflight (delete k (es_inflight s)) s))
        as (Hc1 & Hc2 & Hc3 & Hc4 & Hc5 & Hc6 & Hc7).
      destruct (writeOut _ _ _ _) as [[t| |message] s1]; simpl in *.
      * by apply rtc_once.
      * eapply rtc_l; [exact Hstep|]. apply done_micro. congruence.
      * by apply rtc_once.
    + eapply rtc_l; [by eapply (micro_written false s k)|]. by apply done_micro.
    + eapply rtc_l; [by eapply (micro_written_legacy false s k)|]. by apply done_micro.
Qed.

Lemma forEachLimit_micro {E : Collaborators} (limit : nat) (outputPath : string)
    (this : Compiler) (compilation : Compilation) (w : World) :
  rtc (micro false)
    (mkEmitState this compilation w outputPath (assets compilation).*1
       (length (assets compilation).*1) 0 [] None None)
    (forEachLimit limit outputPath this compilation w).
Proof.
  unfold forEachLimit. case_decide.
  - apply rtc_once. by constructor.
  - apply timesSync_micro.
Qed.

Lemma emitting_micro {E : Collaborators} (limit : nat) (outputPath : string)
    (this : Compiler) (compilation : Compilation) (w : World) (s : EmitState) :
  emitting limit outputPath this compilation w s →
  rtc (micro true)
    (mkEmitState this compilation w outputPath (assets compilation).*1
       (length (assets compilation).*1) 0 [] None None) s.
Proof.
  induction 1 as [|s k err _ IH].
  - apply rtc_micro_mono, forEachLimit_micro.
  - etrans; [exact IH|]. eapply rtc_micro_errors, complete_micro.
Qed.


(** ** Caching mode *)

(** [writeOut] in caching mode, with the two cases of the cache entry
    (found, created) folded into one. *)
Lemma writeOut_caching {E : Collaborators} (file targetFile : string) (source : SourceId)
    (s : EmitState) :
  futureEmitAssets (es_this s) = true →
  let this := es_this s in
  let compilation := es_compilation s in
  let w := es_world s in
  let targetPath := fs_join (es_outputPath s) targetFile in
  let cacheEntry :=
    default (mkCacheEntry None ∅) (_assetEmittingSourceCache this !! source) in
  let cache := <[source := cacheEntry]> (_assetEmittingSourceCache this) in
  let skip :=
    match _assetEmittingWrittenFiles this !! targetPath with
    | Some g => bool_decide (writtenTo cacheEntry !! targetPath = Some g)
    | None => false
    end in
  let unchanged :=
    set_objects s (set_emitting this cache (_assetEmittingWrittenFiles this)) compilation w in
  writeOut file targetFile source s =
    if skip then (CompletedSync, unchanged)
    else
      match Source_content <$> sources w !! source with
      | Some (Returned content) =>
        let sizeOnly := fresh (dom (sources w)) in
        (Pending (AwaitWriteFile file targetPath source
                    (_assetEmittingWrittenFiles this !! targetPath)),
         set_objects s
           (set_emitting this
              (<[source := mkCacheEntry (Some sizeOnly) (writtenTo cacheEntry)]>
                 (_assetEmittingSourceCache this))
              (_assetEmittingWrittenFiles this))
           (mkCompilation (assets_set file sizeOnly (assets compilation))
              (emittedAssets compilation) (needAdditionalPass compilation))
           (mkWorld (heap w)
              (<[sizeOnly := SizeOnlySource (length content)]> (sources w))
              (trace w ++ [EWriteFile targetPath content])))
      | Some (Threw message) => (ThrewSync message, unchanged)
      | Some Unmodelled | None => (ThrewSync "TypeError: source is not an object", unchanged)
      end.
Proof.
  intros Hmode. unfold writeOut. rewrite Hmode. simpl.
  destruct (_assetEmittingSourceCache (es_this s) !! source) as [ce|] eqn:Hce; simpl.
  - rewrite (insert_id _ _ _ Hce). done.
  - rewrite insert_insert_eq. done.
Qed.

Lemma futureEmitAssets_set_emitting (this : Compiler) (cache : gmap SourceId CacheEntry)
    (written : gmap string nat) :
  futureEmitAssets (set_emitting this cache written) = futureEmitAssets this.
Proof. done. Qed.

Lemma lookup_insert_fresh_source (srcs : gmap SourceId Source) (x y : Source) (id : SourceId) :
  srcs !! id = Some y → <[fresh (dom srcs) := x]> srcs !! id = Some y.
Proof.
  intros Hid. rewrite lookup_insert_ne; [done|].
  intros <-. apply (is_fresh (dom srcs)). apply elem_of_dom. eauto.
Qed.

(** Issuing the write of [file0] keeps the stand-ins of the other files. *)
Lemma standin_write_other (s : EmitState) (this : Compiler) (file0 path0 : string)
    (content0 : list ascii) (file path : string) (content : list ascii) :
  file ≠ file0 →
  standin s file path content →
  standin
    (set_objects s this
       (mkCompilation
          (assets_set file0 (fresh (dom (sources (es_world s)))) (assets (es_compilation s)))
          (emittedAssets (es_compilation s)) (needAdditionalPass (es_compilation s)))
       (mkWorld (heap (es_world s))
          (<[fresh (dom (sources (es_world s))) := SizeOnlySource (length content0)]>
             (sources (es_world s)))
          (trace (es_world s) ++ [EWriteFile path0 content0])))
    file path content.
Proof.
  intros Hne (sid & Hget & Hsrc & Hev). exists sid. simpl. split_and!.
  - by rewrite assets_get_set_ne.
  - by apply lookup_insert_fresh_source.
  - apply elem_of_app. by left.
Qed.

Lemma writeOut_caching_inv {E : Collaborators} (emitted0 : gset string) (file : string)
    (source : SourceId) (s : EmitState) :
  entered emitted0 file s →
  caching_inv emitted0 (settle (writeOut file (targetFile_of file) source s)).
Proof.
  intros ((Hmode & Hnd & Hmk & Hwr & Hem) & Hkeys & Hfl & Hnew).
  rewrite writeOut_caching by done.
  set (cacheEntry := default (mkCacheEntry None ∅) (_assetEmittingSourceCache (es_this s) !! source)).
  assert (∀ src ce', is_Some (_assetEmittingSourceCache (es_this s) !! src) →
            is_Some (<[source := ce']> (_assetEmittingSourceCache (es_this s)) !! src)) as Hcache.
  { intros src ce' Hsome. rewrite lookup_insert_is_Some. destruct (decide (source = src)); eauto. }
  (* the states that differ from [s] in the cache only *)
  assert (∀ ce' thrown,
            caching_inv emitted0
              (mkEmitState
                 (set_emitting (es_this s) (<[source := ce']> (_assetEmittingSourceCache (es_this s)))
                    (_assetEmittingWrittenFiles (es_this s)))
                 (es_compilation s) (es_world s) (es_outputPath s) (es_keys s) (es_size s)
                 (es_completed s) (es_inflight s) (es_callback s) thrown)) as Hsame.
  { intros ce' thrown. unfold caching_inv. simpl. split_and!; try done.
    intros f p src g Hin. destruct (Hwr f p src g Hin) as (Hp & Hsome & content & Hst & Hct).
    split_and!; [done|by apply Hcache|]. by exists content. }
  destruct (match _assetEmittingWrittenFiles (es_this s) !! _ with
            | Some g => bool_decide (writtenTo cacheEntry !! _ = Some g)
            | None => false end); [apply Hsame|].
  destruct (sources (es_world s) !! source) as [src|] eqn:Hsrc; simpl; [|apply Hsame].
  destruct (Source_content src) as [content|message|] eqn:Hcontent; simpl; [|apply Hsame..].
  unfold caching_inv. simpl. split_and!.
  - done.
  - rewrite fmap_app. simpl. rewrite app_assoc. apply NoDup_app. split_and!; [done| |apply NoDup_singleton].
    intros x Hx ->%list_elem_of_singleton.
    apply elem_of_app in Hx as [?|?]; done.
  - intros f tf src' [Hin|[=]%list_elem_of_singleton]%elem_of_app. by eapply Hmk.
  - intros f p src' g [Hin|Heq%list_elem_of_singleton]%elem_of_app.
    + destruct (Hwr f p src' g Hin) as (Hp & Hsome & content' & Hst & Hct).
      assert (f ≠ file) as Hne.
      { intros ->. apply Hfl. apply list_elem_of_fmap. by exists (AwaitWriteFile file p src' g). }
      split_and!; [done|by apply Hcache|]. exists content'. split.
      * by apply standin_write_other.
      * destruct (sources (es_world s) !! src') as [x|] eqn:Hx; [|done].
        by rewrite (lookup_insert_fresh_source _ _ x).
    + injection Heq as -> -> -> ->.
      split_and!; [done|by rewrite lookup_insert_eq|].
      exists content. split.
      * eexists. simpl. split_and!.
        -- apply assets_get_set_eq.
        -- by rewrite lookup_insert_eq.
        -- apply elem_of_app. right. apply list_elem_of_here.
      * rewrite (lookup_insert_fresh_source _ _ src) by done. simpl. by rewrite Hcontent.
  - intros f Hf Hf0. destruct (Hem f Hf Hf0) as (Hk & Hi & content' & Hst).
    assert (f ≠ file) as Hne by (intros ->; by apply Hf0, Hnew).
    split_and!; [done| |].
    + rewrite fmap_app. intros [?|?%list_elem_of_singleton]%elem_of_app; done.
    + exists content'. by apply standin_write_other.
Qed.

(** Fewer keys to start and fewer calls in flight keep the invariant. *)
Lemma caching_inv_sub {E : Collaborators} (emitted0 : gset string) (s : EmitState)
    (keys : list string) (tasks : list Task) :
  caching_inv emitted0 s →
  keys `sublist_of` es_keys s → tasks `sublist_of` es_inflight s →
  caching_inv emitted0 (set_inflight tasks (set_keys keys s)).
Proof.
  intros (Hmode & Hnd & Hmk & Hwr & Hem) Hkeys Htasks.
  unfold caching_inv. simpl. split_and!.
  - done.
  - eapply sublist_NoDup; [exact Hnd|]. apply sublist_app; [done|]. by apply fmap_sublist.
  - intros f tf src Hin. eapply Hmk. by eapply elem_of_sublist.
  - intros f p src g Hin. eapply Hwr. by eapply elem_of_sublist.
  - intros f Hf Hf0. destruct (Hem f Hf Hf0) as (Hk & Hi & Hst).
    split_and!; [| |done].
    + intros Hin. apply Hk. by eapply elem_of_sublist.
    + intros Hin. apply Hi. eapply elem_of_sublist; [exact Hin|]. by apply fmap_sublist.
Qed.

Lemma entered_start {E : Collaborators} (emitted0 : gset string) (s : EmitState)
    (file : string) (rest : list string) :
  caching_inv emitted0 s → es_keys s = file :: rest →
  entered emitted0 file (set_keys rest s).
Proof.
  intros Hinv Hkeys.
  assert (Hsub := caching_inv_sub emitted0 s rest (es_inflight s) Hinv).
  destruct Hinv as (Hmode & Hnd & Hmk & Hwr & Hem). rewrite Hkeys in Hnd, Hsub.
  apply NoDup_cons in Hnd as [Hnotin Hnd].
  unfold entered. split_and!.
  - assert (set_keys rest s = set_inflight (es_inflight s) (set_keys rest s)) as ->
      by (by destruct s).
    apply Hsub; [by apply sublist_cons|done].
  - simpl. intros Hin. apply Hnotin. apply elem_of_app. by left.
  - simpl. intros Hin. apply Hnotin. apply elem_of_app. by right.
  - simpl. intros Hin. destruct (decide (file ∈ emitted0)) as [|Hno]; [done|].
    destruct (Hem file Hin Hno) as (Hk & _). destruct Hk. rewrite Hkeys. left.
Qed.

Lemma entered_answered {E : Collaborators} (emitted0 : gset string) (s : EmitState)
    (k : nat) (t : Task) :
  caching_inv emitted0 s → es_inflight s !! k = Some t →
  entered emitted0 (task_file t) (set_inflight (delete k (es_inflight s)) s).
Proof.
  intros Hinv Hk.
  assert (Hsub := caching_inv_sub emitted0 s (es_keys s) (delete k (es_inflight s)) Hinv).
  destruct Hinv as (Hmode & Hnd & Hmk & Hwr & Hem).
  assert (Hmove := NoDup_delete_move _ _ _ _ Hk Hnd).
  rewrite app_assoc in Hmove. apply NoDup_app in Hmove as (_ & Hdisj & _).
  unfold entered. split_and!.
  - assert (set_inflight (delete k (es_inflight s)) s
            = set_inflight (delete k (es_inflight s)) (set_keys (es_keys s) s)) as ->
      by (by destruct s).
    apply Hsub; [done|apply sublist_delete].
  - simpl. intros Hin. apply (Hdisj (task_file t)); [|left]. apply elem_of_app. by left.
  - simpl. intros Hin. apply (Hdisj (task_file t)); [|left]. apply elem_of_app. by right.
  - simpl. intros Hin. destruct (decide (task_file t ∈ emitted0)) as [|Hno]; [done|].
    destruct (Hem _ Hin Hno) as (_ & Hi & _). destruct Hi.
    apply list_elem_of_fmap. exists t. split; [done|]. apply list_elem_of_lookup. eauto.
Qed.

(** Every small step keeps the invariant of caching mode. *)
Lemma micro_caching_inv {E : Collaborators} (emitted0 : gset string) (errors : bool)
    (s s' : EmitState) :
  micro errors s s' → caching_inv emitted0 s → caching_inv emitted0 s'.
Proof.
  intros Hstep Hinv.
  destruct Hstep as [s file rest Hkeys Hcb Hthrown|s Hthrown|s err Herr
                    |s k file targetFile source Hthrown Hk
                    |s k file targetPath source g Hthrown Hk
                    |s k file targetPath Hthrown Hk|s k t Herr Hthrown Hk].
  - (* the iterator is called for the next key *)
    assert (Hent := entered_start emitted0 s file rest Hinv Hkeys).
    unfold iterator.
    destruct (assets_get file (assets (es_compilation (set_keys rest s)))) as [source|].
    2:{ destruct Hent as [Hent _]. by destruct s. }
    destruct (has_separator (targetFile_of file)); [|by apply writeOut_caching_inv].
    destruct Hent as ((Hmode & Hnd & Hmk & Hwr & Hem) & Hnk & Hni & Hnew). simpl in *.
    unfold caching_inv. simpl. split_and!.
    + done.
    + rewrite fmap_app. simpl. rewrite app_assoc.
      apply NoDup_app. split_and!; [done| |apply NoDup_singleton].
      intros x Hx ->%list_elem_of_singleton. apply elem_of_app in Hx as [?|?]; done.
    + intros f tf src [Hin|Heq%list_elem_of_singleton]%elem_of_app; [by eapply Hmk|].
      by injection Heq as -> -> ->.
    + intros f p src g [Hin|[=]%list_elem_of_singleton]%elem_of_app.
      destruct (Hwr f p src g Hin) as (Hp & Hsome & content & (sid & H1 & H2 & H3) & Hct).
      split_and!; [done..|]. exists content. split; [|done].
      exists sid. split_and!; [done..|]. simpl. apply elem_of_app. by left.
    + intros f Hf Hf0. destruct (Hem f Hf Hf0) as (Hkf & Hif & content & (sid & H1 & H2 & H3)).
      split_and!; [done| |].
      * rewrite fmap_app. intros [?|Heq%list_elem_of_singleton]%elem_of_app; [done|].
        simpl in Heq. subst f. by apply Hf0, Hnew.
      * exists content, sid. split_and!; [done..|]. simpl. apply elem_of_app. by left.
  - by destruct s.
  - unfold call_final. destruct (es_callback s); [done|]. by destruct s.
  - (* mkdirp answered *)
    assert (Hent := entered_answered emitted0 s k _ Hinv Hk). simpl in Hent.
    destruct Hinv as (_ & _ & Hmk & _).
    rewrite (Hmk file targetFile source); [|apply list_elem_of_lookup; eauto].
    by apply writeOut_caching_inv.
  - (* a write of caching mode answered without error *)
    destruct (entered_answered emitted0 s k _ Hinv Hk)
      as ((Hmode & Hnd & Hmk & Hwr & Hem) & Hnk & Hni & Hnew). simpl in *.
    destruct Hinv as (_ & _ & _ & Hwr0 & _).
    destruct (Hwr0 file targetPath source g) as (Hp & Hsome & content & Hst & Hct);
      [apply list_elem_of_lookup; eauto|].
    unfold caching_inv, record_write. simpl. split_and!; try done.
    + intros f p src g' Hin.
      destruct (Hwr f p src g' Hin) as (Hp' & Hsome' & content' & Hst' & Hct').
      split_and!; [done| |by exists content'].
      destruct (_assetEmittingSourceCache (es_this s) !! source); [|done].
      rewrite lookup_insert_is_Some. destruct (decide (source = src)); eauto.
    + intros f [->%elem_of_singleton|Hf]%elem_of_union Hf0.
      * split_and!; [done..|]. exists content. by rewrite <- Hp.
      * by apply Hem.
  - destruct (entered_answered emitted0 s k _ Hinv Hk) as [? _]. done.
  - destruct (entered_answered emitted0 s k _ Hinv Hk) as [? _]. done.
Qed.

Lemma rtc_micro_caching_inv {E : Collaborators} (emitted0 : gset string) (errors : bool)
    (s s' : EmitState) :
  rtc (micro errors) s s' → caching_inv emitted0 s → caching_inv emitted0 s'.
Proof. induction 1; eauto using micro_caching_inv. Qed.

Lemma emitting_caching_inv {E : Collaborators} (limit : nat) (outputPath : string)
    (this : Compiler) (compilation : Compilation) (w : World) (s : EmitState) :
  futureEmitAssets this = true → NoDup (assets compilation).*1 →
  emitting limit outputPath this compilation w s →
  caching_inv (emittedAssets compilation) s.
Proof.
  intros Hmode Hnd Hs. eapply rtc_micro_caching_inv; [by eapply emitting_micro|].
  unfold caching_inv. simpl. rewrite app_nil_r. split_and!; try done.
  - by intros ??? ?%elem_of_nil.
  - by intros ???? ?%elem_of_nil.
Qed.

Lemma emitting_outputPath {E : Collaborators} (limit : nat) (outputPath : string)
    (this : Compiler) (compilation : Compilation) (w : World) (s : EmitState) :
  emitting limit outputPath this compilation w s → es_outputPath s = outputPath.
Proof.
  induction 1 as [|s k err _ IH].
  - by destruct (forEachLimit_frame limit outputPath this compilation w) as (_ & _ & _ & ? & _).
  - destruct (complete_frame k err s) as (_ & _ & _ & ? & _). congruence.
Qed.

(** C9.  In caching mode, for an asset mapping with distinct keys: a
    file that this emission added to [emittedAssets] (which the callback
    of a write without error does, and nothing else) has as its entry in
    the asset mapping a SizeOnlySource whose size is the byte length of
    the content written to the file's target path; [size()] returns
    that length, and [source()], [map()], [node()], [listMap()],
    [listNode()] and [updateHash()] throw.  This holds at every state
    of the emission, so also when [emitAssets] calls back. *)
Theorem emitted_asset_is_size_only {E : Collaborators} (outputPath : string)
    (this : Compiler) (compilation : Compilation) (w : World) (s : EmitState)
    (file : string) :
  futureEmitAssets this = true →
  NoDup (assets compilation).*1 →
  emitting 15 outputPath this compilation w s →
  file ∈ emittedAssets (es_compilation s) →
  file ∉ emittedAssets compilation →
  ∃ (sizeOnly : SourceId) (content : list ascii),
    assets_get file (assets (es_compilation s)) = Some sizeOnly ∧
    sources (es_world s) !! sizeOnly = Some (SizeOnlySource (length content)) ∧
    EWriteFile (path_of outputPath file) content ∈ trace (es_world s) ∧
    Source_size (SizeOnlySource (length content)) = Returned (length content) ∧
    Source_source (SizeOnlySource (length content)) = Threw SizeOnly._error ∧
    SizeOnly.map (length content) = Threw SizeOnly._error ∧
    SizeOnly.node (length content) = Threw SizeOnly._error ∧
    SizeOnly.listMap (length content) = Threw SizeOnly._error ∧
    SizeOnly.listNode (length content) = Threw SizeOnly._error ∧
    SizeOnly.updateHash (length content) = Threw SizeOnly._error.
Proof.
  intros Hmode Hnd Hs Hin Hnew.
  destruct (emitting_caching_inv _ _ _ _ _ _ Hmode Hnd Hs) as (_ & _ & _ & _ & Hem).
  destruct (Hem file Hin Hnew) as (_ & _ & content & sid & Hget & Hsrc & Hev).
  rewrite (emitting_outputPath _ _ _ _ _ _ Hs) in Hev.
  exists sid, content. split_and!; done.
Qed.

(** ** Generations change only when a write has succeeded *)

Lemma same_generations_refl (s : EmitState) : same_generations s s.
Proof. by unfold same_generations. Qed.

Lemma same_generations_trans (s1 s2 s3 : EmitState) :
  same_generations s1 s2 → same_generations s2 s3 → same_generations s1 s3.
Proof.
  intros (H1 & H2 & H3) (H1' & H2' & H3'). unfold same_generations.
  split_and!; [congruence| |congruence]. intros src p. by rewrite H2', H2.
Qed.

Lemma gen_of_insert_same (this : Compiler) (source : SourceId) (sizeOnly : option SourceId)
    (written : gmap string nat) (src : SourceId) (path : string) :
  gen_of (set_emitting this
            (<[source := mkCacheEntry sizeOnly
                           (writtenTo (default (mkCacheEntry None ∅)
                                         (_assetEmittingSourceCache this !! source)))]>
               (_assetEmittingSourceCache this)) written) src path
  = gen_of this src path.
Proof.
  unfold gen_of. simpl. destruct (decide (source = src)) as [->|Hne].
  - rewrite lookup_insert_eq. simpl.
    by destruct (_assetEmittingSourceCache this !! src).
  - by rewrite lookup_insert_ne.
Qed.

Lemma writeOut_generations {E : Collaborators} (file targetFile : string) (source : SourceId)
    (s : EmitState) :
  same_generations s (writeOut file targetFile source s).2.
Proof.
  destruct (futureEmitAssets (es_this s)) eqn:Hmode.
  - rewrite writeOut_caching by done.
    assert (∀ src p,
              gen_of (set_emitting (es_this s)
                        (<[source := default (mkCacheEntry None ∅)
                                       (_assetEmittingSourceCache (es_this s) !! source)]>
                           (_assetEmittingSourceCache (es_this s)))
                        (_assetEmittingWrittenFiles (es_this s))) src p
              = gen_of (es_this s) src p) as Hsame.
    { intros src p.
      destruct (_assetEmittingSourceCache (es_this s) !! source) as [ce|] eqn:Hce; simpl.
      - by rewrite insert_id.
      - rewrite <- (gen_of_insert_same (es_this s) source None
                      (_assetEmittingWrittenFiles (es_this s)) src p).
        by rewrite Hce. }
    repeat case_match; unfold same_generations; simpl; split_and!; try done;
      intros src p; apply gen_of_insert_same.
  - unfold writeOut. rewrite Hmode.
    repeat case_match; by unfold same_generations.
Qed.

Lemma iterator_generations {E : Collaborators} (file : string) (s : EmitState) :
  same_generations s (iterator file s).2.
Proof.
  unfold iterator. repeat case_match;
    first [apply same_generations_refl|apply writeOut_generations
          |by unfold same_generations].
Qed.

Lemma call_final_generations (err : option string) (s : EmitState) :
  same_generations s (call_final err s).
Proof. unfold call_final. by destruct (es_callback s). Qed.

Lemma iterate_generations {E : Collaborators} (keys : list string) (s : EmitState) :
  same_generations s (iterate keys s).
Proof.
  revert s. induction keys as [|file rest IH]; intros s; simpl;
    [apply same_generations_refl|].
  assert (Hit := iterator_generations file (set_keys rest s)).
  destruct (iterator file (set_keys rest s)) as [[t| |message] s1]; simpl in Hit; [done| |done].
  eapply same_generations_trans; [exact Hit|].
  eapply (same_generations_trans _ (set_completed (S (es_completed s1)) s1)); [done|].
  case_decide; [apply call_final_generations|apply IH].
Qed.

Lemma done_generations {E : Collaborators} (err : option string) (s : EmitState) :
  same_generations s (done err s).
Proof.
  unfold done. destruct err; [apply call_final_generations|].
  eapply (same_generations_trans _ (set_completed (S (es_completed s)) s)); [done|].
  case_decide; [apply call_final_generations|].
  unfold iterate_next. repeat case_match; try apply same_generations_refl.
  apply iterate_generations.
Qed.

(** C10.  In caching mode, for an asset mapping with distinct keys, and
    a write of [file] in flight:
    - [assets[file]] already is the size-only stand-in, an object other
      than the content object [source], which was read for the write;
    - an answer with an error leaves the Compiler (both generation
      maps), the compilation (the stand-in stays in [assets[file]]) and
      the stores as they were, and passes the error to the final
      callback when that was not called yet;
    - an answer without error records the new generation of the target
      path in both maps and adds the file to [emittedAssets];
    - calling the iterator, which issues the writes, changes no
      generation. *)
Theorem write_in_flight_is_not_atomic {E : Collaborators} (outputPath : string)
    (this : Compiler) (compilation : Compilation) (w : World) (s : EmitState)
    (k : nat) (file targetPath : string) (source : SourceId) (g : option nat) :
  futureEmitAssets this = true →
  NoDup (assets compilation).*1 →
  emitting 15 outputPath this compilation w s →
  es_thrown s = None →
  es_inflight s !! k = Some (AwaitWriteFile file targetPath source g) →
  (∃ (sizeOnly : SourceId) (content : list ascii),
     assets_get file (assets (es_compilation s)) = Some sizeOnly ∧
     sizeOnly ≠ source ∧
     sources (es_world s) !! sizeOnly = Some (SizeOnlySource (length content)) ∧
     EWriteFile targetPath content ∈ trace (es_world s) ∧
     Source_content <$> sources (es_world s) !! source = Some (Returned content)) ∧
  (∀ err, let s' := complete k (Some err) s in
     es_this s' = es_this s ∧ es_compilation s' = es_compilation s ∧
     es_world s' = es_world s ∧
     (es_callback s = None → es_callback s' = Some (Some err))) ∧
  (let s' := complete k None s in
   let newGeneration := match g with None => 1 | Some n => n + 1 end in
   _assetEmittingWrittenFiles (es_this s') !! targetPath = Some newGeneration ∧
   gen_of (es_this s') source targetPath = Some newGeneration ∧
   file ∈ emittedAssets (es_compilation s')) ∧
  (∀ file0 s0, same_generations s0 (iterator file0 s0).2).
Proof.
  intros Hmode Hnd Hs Hthrown Hk.
  destruct (emitting_caching_inv _ _ _ _ _ _ Hmode Hnd Hs) as (_ & _ & _ & Hwr & _).
  destruct (Hwr file targetPath source g) as (_ & [ce Hce] & content & (sid & Hget & Hsrc & Hev) & Hct);
    [apply list_elem_of_lookup; eauto|].
  split_and!.
  - exists sid, content. split_and!; try done.
    intros ->. rewrite Hsrc in Hct. done.
  - intros err. unfold complete. rewrite Hthrown, Hk. unfold done, call_final. simpl.
    destruct (es_callback s); split_and!; done.
  - unfold complete. rewrite Hthrown, Hk.
    destruct (done_generations None
                (record_write file targetPath source g
                   (set_inflight (delete k (es_inflight s)) s))) as (Hw & Hg & He).
    rewrite Hw, Hg, He. unfold record_write, gen_of. simpl. rewrite Hce.
    rewrite !lookup_insert_eq. simpl. rewrite lookup_insert_eq.
    split_and!; [done..|]. apply elem_of_union. left. by apply elem_of_singleton.
  - intros file0 s0. apply iterator_generations.
Qed.

(** ** emitAssets and the afterEmit hook *)

Lemma series_trace {E : Collaborators} (hook : string) (taps : list Tap) (tr : list Event) :
  ∃ n, (series hook taps tr).2 = tr ++ (ETap hook <$> take n taps).
Proof.
  revert tr. induction taps as [|t taps IH]; intros tr; simpl.
  - exists 0. by rewrite app_nil_r.
  - destruct (tap_callAsync hook t (tr ++ [ETap hook t])).
    + by exists 1.
    + destruct (IH (tr ++ [ETap hook t])) as [n ->]. exists (S n).
      by rewrite <- app_assoc.
Qed.

Lemma callAsync_trace {E : Collaborators} (hook : string) (this : Compiler) (w : World) :
  ∃ n, trace (callAsync hook this w).2
       = trace w ++ EHook hook :: (ETap hook <$> take n (taps_of this hook)).
Proof.
  unfold callAsync.
  destruct (series_trace hook (taps_of this hook) (trace w ++ [EHook hook])) as [n Hn].
  destruct (series _ _ _) as [err tr]. simpl in *. exists n. by rewrite Hn, <- app_assoc.
Qed.

Lemma fs_event_not_hook (added : list Event) (hook : string) :
  Forall is_fs_event added → EHook hook ∉ added.
Proof.
  intros Hall Hin. rewrite Forall_forall in Hall. by apply Hall in Hin.
Qed.

(** C2 (amended).  Once the [emit] hook and the [mkdirp] of the output
    directory went through and no exception left the iterator:
    - when the final callback of the limiter carries the error of a
      failed write (or [mkdirp]), [emitAssets] passes that error to its
      callback at once, and [afterEmit] has not been fired;
    - when it carries no error, that is when every write completed
      without error, [afterEmit] is fired next, before [emitAssets]
      calls back, and the callback receives the error of an [afterEmit]
      tap, or none. *)
Theorem afterEmit_only_after_success {E : Collaborators} (compilation : Compilation)
    (this : Compiler) (w w1 : World) :
  let outputPath := getPath (outputPath this) in
  callAsync "emit" this (log (EMethod "emitAssets") w) = (None, w1) →
  outputFileSystem_mkdirp outputPath (trace (log (EMkdirp outputPath) w1)) = None →
  let s := emitFiles outputPath this compilation (log (EMkdirp outputPath) w1) in
  es_thrown s = None →
  (∀ err, es_callback s = Some (Some err) →
     emitAssets compilation this w = (Err err, es_this s, es_world s) ∧
     (EHook "afterEmit" ∉ events_since (trace w) (es_world s))) ∧
  (es_callback s = Some None →
     let after := callAsync "afterEmit" (es_this s) (es_world s) in
     emitAssets compilation this w
     = (match after.1 with
        | Some err => Err err
        | None => Ok (es_compilation s)
        end, es_this s, after.2) ∧
     head (events_since (trace (es_world s)) after.2) = Some (EHook "afterEmit") ∧
     EHook "afterEmit" ∈ events_since (trace w) after.2).
Proof.
  intros outputPath Hemit Hmkdirp s Hthrown.
  destruct (emitFiles_frame outputPath this compilation (log (EMkdirp outputPath) w1))
    as ((added & Ht & Hfs) & _).
  fold s in Ht.
  destruct (callAsync_trace "emit" this (log (EMethod "emitAssets") w)) as [n Hn].
  rewrite Hemit in Hn. simpl in Hn.
  assert (trace (es_world s)
          = trace w ++ ([EMethod "emitAssets"; EHook "emit"]
                        ++ (ETap "emit" <$> take n (taps_of this "emit"))
                        ++ [EMkdirp outputPath] ++ added)) as Htrace.
  { rewrite Ht. simpl. rewrite Hn. by rewrite <- !app_assoc. }
  split.
  - intros err Hcb. split.
    + unfold emitAssets. rewrite Hemit. fold outputPath. rewrite Hmkdirp.
      fold s. by rewrite Hthrown, Hcb.
    + unfold events_since. rewrite Htrace, drop_app_length.
      rewrite !not_elem_of_app, !not_elem_of_cons, list_elem_of_fmap.
      split_and!; try done; try apply not_elem_of_nil.
      * by intros (? & ? & ?).
      * by apply fs_event_not_hook.
  - intros Hcb after. split_and!.
    + unfold emitAssets. rewrite Hemit. fold outputPath. rewrite Hmkdirp.
      fold s. rewrite Hthrown, Hcb. fold after. by destruct after as [[err|] w2].
    + destruct (callAsync_trace "afterEmit" (es_this s) (es_world s)) as [m Hm].
      fold after in Hm. unfold events_since. by rewrite Hm, drop_app_length.
    + destruct (callAsync_trace "afterEmit" (es_this s) (es_world s)) as [m Hm].
      fold after in Hm. unfold events_since. rewrite Hm, Htrace, <- app_assoc, drop_app_length.
      apply elem_of_app. right. apply list_elem_of_here.
Qed.

(** ** Caching mode: fresh distinct paths are all written *)



Lemma NoDup_fmap_delete_notin {A B : Type} (f : A → B) (l : list A) (k : nat) (y : A) :
  l !! k = Some y → NoDup (f <$> l) → f y ∉ f <$> delete k l.
Proof.
  intros Hk Hnd. rewrite (delete_Permutation l k y Hk) in Hnd. simpl in Hnd.
  by apply NoDup_cons in Hnd as [? _].
Qed.







(** ** The bound rejects nothing *)





(** ** The bound of 15 *)


(** ** Caching mode: the same content object twice *)




Section single_asset.
#[local] Arguments writeOut : simpl never.






End single_asset.

(** ** emitAssets without failure *)










(** ** One write per content object and path *)


(** ** The stages of a build without failure *)

























(** ** The additional pass *)


(** ** The theorems at concrete builds *)






(** C2 as stated fails: when the file system fails the write of the
    only asset, [emitAssets] passes the error to its callback and the
    hook [afterEmit] has not been called. *)
Lemma emitAssets_write_failure_skips_afterEmit :
  match emitAssets (E:=failing_writes) one_asset caching_parent demo_world with
  | (Err err, _, w') =>
    err = "EIO: i/o error" ∧
    bool_decide (EWriteFile "/dist/main.js" (Buffer_from (IsString "console.log(1)"))
                 ∈ trace w') = true ∧
    bool_decide (EHook "afterEmit" ∈ trace w') = false
  | _ => False
  end.
Proof. by vm_compute. Qed.

Lemma afterEmit_only_after_success_witness :
  ∃ compilation' this' w',
    emitAssets (E:=demo_collaborators) one_asset caching_parent demo_world
    = (Ok compilation', this', w') ∧
    EHook "afterEmit" ∈ events_since (trace demo_world) w'.
Proof.
  destruct (afterEmit_only_after_success (E:=demo_collaborators) one_asset caching_parent
              demo_world
              (callAsync (E:=demo_collaborators) "emit" caching_parent
                 (log (EMethod "emitAssets") demo_world)).2)
    as [_ Hafter]; [reflexivity|reflexivity|by vm_compute|].
  destruct Hafter as (Hrun & _ & Hin); [by vm_compute|].
  eexists _, _, _. split; [exact Hrun|exact Hin].
Defined.





Lemma emitted_asset_is_size_only_witness :
  let s := complete (E:=demo_collaborators) 0 None
             (forEachLimit (E:=demo_collaborators) 15 "/dist" caching_parent one_asset
                demo_world) in
  ∃ (sizeOnly : SourceId) (content : list ascii),
    assets_get "main.js" (assets (es_compilation s)) = Some sizeOnly ∧
    sources (es_world s) !! sizeOnly = Some (SizeOnlySource (length content)) ∧
    EWriteFile (path_of (E:=demo_collaborators) "/dist" "main.js") content
      ∈ trace (es_world s) ∧
    Source_size (SizeOnlySource (length content)) = Returned (length content) ∧
    Source_source (SizeOnlySource (length content)) = Threw SizeOnly._error ∧
    SizeOnly.map (length content) = Threw SizeOnly._error ∧
    SizeOnly.node (length content) = Threw SizeOnly._error ∧
    SizeOnly.listMap (length content) = Threw SizeOnly._error ∧
    SizeOnly.listNode (length content) = Threw SizeOnly._error ∧
    SizeOnly.updateHash (length content) = Threw SizeOnly._error.
Proof.
  apply (emitted_asset_is_size_only (E:=demo_collaborators) "/dist" caching_parent one_asset
           demo_world).
  - reflexivity.
  - apply (bool_decide_unpack _). by vm_compute.
  - apply emitting_complete, emitting_start.
  - apply (bool_decide_unpack _). by vm_compute.
  - apply (bool_decide_unpack _). by vm_compute.
Defined.

Lemma write_in_flight_is_not_atomic_witness :
  let s := forEachLimit (E:=demo_collaborators) 15 "/dist" caching_parent one_asset
             demo_world in
  ∃ (sizeOnly : SourceId) (content : list ascii),
    assets_get "main.js" (assets (es_compilation s)) = Some sizeOnly ∧
    sizeOnly ≠ 1 ∧
    sources (es_world s) !! sizeOnly = Some (SizeOnlySource (length content)) ∧
    EWriteFile "/dist/main.js" content ∈ trace (es_world s) ∧
    Source_content <$> sources (es_world s) !! 1 = Some (Returned content).
Proof.
  destruct (write_in_flight_is_not_atomic (E:=demo_collaborators) "/dist" caching_parent
              one_asset demo_world
              (forEachLimit (E:=demo_collaborators) 15 "/dist" caching_parent one_asset
                 demo_world)
              0 "main.js" "/dist/main.js" 1 None) as [Hstandin _].
  - reflexivity.
  - apply (bool_decide_unpack _). by vm_compute.
  - apply emitting_start.
  - reflexivity.
  - reflexivity.
  - exact Hstandin.
Defined.
